(** * List.jsx: filter engine and refresh scheduler of the [List] component

    A shallow embedding of [src/components/list/List.jsx].  The component
    keeps a list of user-toggleable filter objects, composes them with the
    caller's mandatory filters to decide which rows reach the grid, and
    re-triggers a fetch callback on a timer between mount and unmount.

    JavaScript objects and arrays that the code shares or mutates live in
    explicit stores, addressed by references:
    - the optional-filter objects ([{label, filter, enabled, key}]) the caller
      passes in [props.optionalFilters], which the constructor and the toggle
      handler write to in place;
    - the row arrays ([props.rowData] and the arrays [Array.prototype.filter]
      allocates);
    - the interval timers of the runtime ([setInterval] / [clearInterval]). *)

From Stdlib Require Import ZArith String Ascii List Permutation Lia.
From Equations Require Import Equations.
From stdpp Require Import gmap list.

Local Open Scope Z_scope.

(** ** JavaScript values of an optional prop *)

(** A prop is [undefined] (not passed), [null], or a value. *)
Inductive JsOpt (A : Type) : Type :=
| Undefined
| Null
| Val (a : A).
Arguments Undefined {A}.
Arguments Null {A}.
Arguments Val {A} a.

(** How a statement completes: normally, or by throwing a [TypeError]
    (calling or dereferencing [null]). *)
Inductive Completion : Type :=
| Normal
| TypeError.

(** ** Labels and keys

    A label is a string of code units below 256 (Rocq's 8-bit [ascii], read
    as Latin-1).  On these, [String.prototype.toLowerCase] maps A-Z and the
    accented capitals U+00C0-U+00DE (except the multiplication sign U+00D7)
    32 places up and leaves every other unit alone, and the regular
    expression class [\s] matches TAB, LF, VT, FF, CR, SPACE and NBSP. *)

Definition toLowerCase_unit (c : ascii) : ascii :=
  let n := nat_of_ascii c in
  if ((65 <=? n) && (n <=? 90) ||
      (192 <=? n) && (n <=? 222) && negb (n =? 215))%nat
  then ascii_of_nat (n + 32)
  else c.

Fixpoint toLowerCase (s : string) : string :=
  match s with
  | EmptyString => EmptyString
  | String c s' => String (toLowerCase_unit c) (toLowerCase s')
  end.

(** The class [\s]. *)
Definition is_whitespace (c : ascii) : bool :=
  let n := nat_of_ascii c in
  ((9 <=? n) && (n <=? 13) || (n =? 32) || (n =? 160))%nat.

(** [s.replace(/\s/g, '')] *)
Fixpoint replace_whitespace (s : string) : string :=
  match s with
  | EmptyString => EmptyString
  | String c s' =>
      if is_whitespace c then replace_whitespace s'
      else String c (replace_whitespace s')
  end.

(** [label.toLowerCase().replace(/\s/g,'')] (constructor, line 55) *)
Definition normalize (label : string) : string :=
  replace_whitespace (toLowerCase label).

(** ** The runtime: interval timers and the calls the component makes

    The component's effects on the outside are the calls of
    [fetchListActionCreator], the calls of the other action creators, and the
    interval timer it arms.  The one [setInterval] of the file (line 68) has
    the callback [() => this.props.fetchListActionCreator()], so every timer
    of the table calls the fetch function when it fires. *)

Record Timer : Type := mkTimer {
  period : Z;     (* the delay passed to setInterval, in ms *)
  armed_at : Z    (* the time at which it was armed *)
}.

Record Runtime : Type := mkRuntime {
  now : Z;                       (* simulated clock, in ms *)
  timers : gmap positive Timer;  (* the armed interval timers, by handle *)
  next_timer : positive;         (* the next handle setInterval returns *)
  fetchCalls : nat;              (* calls of fetchListActionCreator so far *)
  actionCalls : list nat         (* the other action creators called, in order *)
}.

(** [setInterval(callback, delay)]: arms a timer under a new handle.  The
    component calls it with [delay > 0] only; the timer is the one a delay
    below 2^31 ms gives, which is taken as it is. *)
Definition setInterval (delay : Z) (w : Runtime) : positive * Runtime :=
  let id := next_timer w in
  (id, {| now := now w;
          timers := <[id := {| period := delay; armed_at := now w |}]> (timers w);
          next_timer := Pos.succ id;
          fetchCalls := fetchCalls w;
          actionCalls := actionCalls w |}).

(** [clearInterval(handle)]: cancels the timer of that handle; a handle that
    is [undefined] or names no armed timer is ignored. *)
Definition clearInterval (handle : option positive) (w : Runtime) : Runtime :=
  match handle with
  | Some id =>
      {| now := now w;
         timers := delete id (timers w);
         next_timer := next_timer w;
         fetchCalls := fetchCalls w;
         actionCalls := actionCalls w |}
  | None => w
  end.

(** How often a timer fires while the clock goes from [t0] to [t0 + dt]: it
    fires at [armed_at + period], [armed_at + 2 * period], ... *)
Definition firings (t0 dt : Z) (tm : Timer) : nat :=
  Z.to_nat ((t0 + dt - armed_at tm) / period tm - (t0 - armed_at tm) / period tm).

(** Simulated time: [dt] ms pass and every armed timer fires as often as is
    due, each firing calling the fetch function. *)
Definition advance (dt : Z) (w : Runtime) : Runtime :=
  if dt <=? 0 then w
  else
    {| now := now w + dt;
       timers := timers w;
       next_timer := next_timer w;
       fetchCalls :=
         map_fold (λ _ tm n, (n + firings (now w) dt tm)%nat) (fetchCalls w) (timers w);
       actionCalls := actionCalls w |}.

(** A call of the fetch function, and of one of the other action creators. *)
Definition call_fetch (w : Runtime) : Runtime :=
  {| now := now w;
     timers := timers w;
     next_timer := next_timer w;
     fetchCalls := S (fetchCalls w);
     actionCalls := actionCalls w |}.

Definition call_action (w : Runtime) (a : nat) : Runtime :=
  {| now := now w;
     timers := timers w;
     next_timer := next_timer w;
     fetchCalls := fetchCalls w;
     actionCalls := actionCalls w ++ [a] |}.

(** A runtime in which nothing has happened yet. *)
Definition fresh_runtime : Runtime :=
  {| now := 0; timers := ∅; next_timer := 1%positive;
     fetchCalls := 0; actionCalls := [] |}.

(** ** The component

    References to optional-filter objects and to row arrays. *)
Abbreviation loc := positive (only parsing).
Abbreviation aref := positive (only parsing).

Section Component.

(** A row is opaque: the component looks at it only through filters. *)
Context {Row : Type}.

(** A filter is a predicate over a row: of the three arguments
    [Array.prototype.filter] passes (element, index, array) it looks at the
    element only, and the truthiness of what it returns is its boolean. *)
Definition Filter : Type := Row → bool.

(** An optional-filter object.  [label] and [filter] come from the caller;
    [enabled] and [key] are absent ([None], JavaScript's [undefined]) until
    the constructor writes them. *)
Record OptionalFilter : Type := mkOptionalFilter {
  label : string;
  filter : Filter;
  enabled : option bool;
  key : option string
}.

(** The props the engine and the scheduler read.  An action creator is an
    opaque function of the caller, known by a number; [optionalFilters] is an
    array of references to the caller's objects and [rowData] a reference to
    the caller's array.  [columnDefs], [onRowCount],
    [rowSelectedActionCreators] and [title] are handed to the rendering
    unchanged and are left out. *)
Record Props : Type := mkProps {
  delayInterval : JsOpt Z;
  fetchListActionCreator : JsOpt nat;
  filters : JsOpt (list Filter);
  onMountOtherActionCreators : JsOpt (list nat);
  optionalFilters : JsOpt (list loc);
  rowData : aref
}.

(** [List.defaultProps] (lines 160-171): the entries for the props above. *)
Definition default_delayInterval : Z := 10000.
Definition default_filters : list Filter := [].

(** React fills in a default for every prop that is [undefined] when the
    element is created; [null] is kept. *)
Definition withDefault {A} (d : A) (v : JsOpt A) : JsOpt A :=
  match v with
  | Undefined => Val d
  | _ => v
  end.

Definition resolveDefaultProps (p : Props) : Props :=
  {| delayInterval := withDefault default_delayInterval (delayInterval p);
     fetchListActionCreator := fetchListActionCreator p;
     filters := withDefault default_filters (filters p);
     onMountOtherActionCreators := onMountOtherActionCreators p;
     optionalFilters := optionalFilters p;
     rowData := rowData p |}.

(** The component instance: [this.props], [this.state.filters] (an array of
    references to optional-filter objects) and [this.interval]. *)
Record Instance : Type := mkInstance {
  props : Props;
  state_filters : list loc;
  interval : option positive
}.

(** JavaScript truthiness of a property that is a boolean or absent. *)
Definition truthy (b : option bool) : bool :=
  match b with
  | Some true => true
  | _ => false
  end.

(** [arr.map(cb)] for a callback that writes to the object it is given and
    returns that same object: the objects are updated in the store, in
    array order, and the new array holds the same references.  (A reference
    always names an object; [alter] leaves the store alone for one that
    would not.) *)
Fixpoint map_in_place (cb : OptionalFilter → OptionalFilter)
    (vs : list loc) (h : gmap loc OptionalFilter)
    : list loc * gmap loc OptionalFilter :=
  match vs with
  | [] => ([], h)
  | v :: vs' =>
      let h1 := alter cb v h in
      let (out, h2) := map_in_place cb vs' h1 in
      (v :: out, h2)
  end.

(** The constructor's callback (lines 53-57). *)
Definition init_filter (v : OptionalFilter) : OptionalFilter :=
  {| label := label v;
     filter := filter v;
     enabled := Some false;
     key := Some (normalize (label v)) |}.

(** [constructor(props)] (lines 44-60). *)
Definition constructor (p : Props) (h : gmap loc OptionalFilter)
    : Instance * gmap loc OptionalFilter :=
  match optionalFilters p with
  | Val specs =>
      let (fs, h') := map_in_place init_filter specs h in
      ({| props := p; state_filters := fs; interval := None |}, h')
  | _ => ({| props := p; state_filters := []; interval := None |}, h)
  end.

(** [filter.key === key] *)
Definition key_matches (v : OptionalFilter) (k : string) : bool :=
  match key v with
  | Some k' => String.eqb k' k
  | None => false
  end.

(** The toggle handler's callback (lines 110-115). *)
Definition toggle_filter (k : string) (v : OptionalFilter) : OptionalFilter :=
  if key_matches v k
  then {| label := label v;
          filter := filter v;
          enabled := Some (negb (truthy (enabled v)));
          key := key v |}
  else v.

(** [handleFilterToggle(e, key)] (lines 107-119): the updater passed to
    [setState] is applied to the current state; it writes to the filter
    objects and returns the state object it was given. *)
Definition handleFilterToggle (k : string) (c : Instance)
    (h : gmap loc OptionalFilter) : Instance * gmap loc OptionalFilter :=
  let (fs, h') := map_in_place (toggle_filter k) (state_filters c) h in
  ({| props := props c; state_filters := fs; interval := interval c |}, h').

(** [list.filter(f)] on a row array: a new array is allocated for the
    result.  [None] stands for a reference that names no array. *)
Definition array_filter (f : Filter) (arr : aref)
    (σ : gmap aref (list Row)) : option (aref * gmap aref (list Row)) :=
  match σ !! arr with
  | Some rows =>
      let a := fresh (dom σ) in
      Some (a, <[a := List.filter f rows]> σ)
  | None => None
  end.

(** [applyFiltersHelper(list, filters)] (lines 99-105). *)
Equations? applyFiltersHelper (lst : aref) (fs : list Filter)
    (σ : gmap aref (list Row)) : option (aref * gmap aref (list Row))
    by wf (length fs) lt :=
  applyFiltersHelper lst fs σ with Nat.eq_dec (length fs) 0%nat := {
    | left _ => Some (lst, σ)
    | right Hlen with fs !! (length fs - 1)%nat := {
        | Some f with array_filter f lst σ := {
            | Some (lst', σ') =>
                applyFiltersHelper lst' (take (length fs - 1) fs) σ'
            | None => None }
        | None => None } }.
Proof.
  rewrite length_take. lia.
Qed.

(** The objects an array of references points to, in array order. *)
Definition deref (h : gmap loc OptionalFilter) (vs : list loc)
    : list OptionalFilter :=
  omap (λ v, h !! v) vs.

(** The filter sequence [applyFilters] builds (lines 84-94): the mandatory
    filters, then the filters of the enabled optional-filter objects.
    [this.state.filters] is an array from the constructor on, so the test of
    line 87 always succeeds. *)
Definition pipeline (c : Instance) (h : gmap loc OptionalFilter)
    : list Filter :=
  let fs := match filters (props c) with
            | Val fs => fs
            | _ => []
            end in
  fs ++ map filter (List.filter (λ v, truthy (enabled v))
                                (deref h (state_filters c))).

(** [applyFilters(list)] (lines 83-97). *)
Definition applyFilters (c : Instance) (h : gmap loc OptionalFilter)
    (lst : aref) (σ : gmap aref (list Row))
    : option (aref * gmap aref (list Row)) :=
  applyFiltersHelper lst (pipeline c h) σ.

(** *** The refresh scheduler *)

(** Lines 73-75: the other action creators, each called once, in order.
    [null.forEach] throws. *)
Definition mountOtherActions (c : Instance) (w : Runtime)
    : Completion * Instance * Runtime :=
  match onMountOtherActionCreators (props c) with
  | Undefined => (Normal, c, w)
  | Null => (TypeError, c, w)
  | Val actions => (Normal, c, foldl call_action w actions)
  end.

(** [componentDidMount()] (lines 62-77).  Calling [null] throws;
    [null > 0] is false. *)
Definition componentDidMount (c : Instance) (w : Runtime)
    : Completion * Instance * Runtime :=
  match fetchListActionCreator (props c) with
  | Undefined => mountOtherActions c w
  | Null => (TypeError, c, w)
  | Val _ =>
      let w1 := call_fetch w in
      match delayInterval (props c) with
      | Val d =>
          if 0 <? d
          then
            let (id, w2) := setInterval d w1 in
            mountOtherActions
              {| props := props c;
                 state_filters := state_filters c;
                 interval := Some id |} w2
          else mountOtherActions c w1
      | _ => mountOtherActions c w1
      end
  end.

(** [componentWillUnmount()] (lines 79-81). *)
Definition componentWillUnmount (c : Instance) (w : Runtime) : Runtime :=
  clearInterval (interval c) w.

(** Activation of [<List {...p} />]: React fills in the default props,
    runs the constructor and then [componentDidMount]. *)
Definition activate (p : Props) (h : gmap loc OptionalFilter) (w : Runtime)
    : Completion * Instance * gmap loc OptionalFilter * Runtime :=
  let (c, h') := constructor (resolveDefaultProps p) h in
  let '(r, c', w') := componentDidMount c w in
  (r, c', h', w').

End Component.

Arguments OptionalFilter : clear implicits.
Arguments Props : clear implicits.
Arguments Instance : clear implicits.
Arguments Filter : clear implicits.


(** ** Statements: the notions the properties are phrased with *)

(** The label lower-cased, with all whitespace characters removed, said on
    the list of code units. *)
Definition normalize_spec (label : string) : string :=
  string_of_list_ascii
    (List.filter (λ c, negb (is_whitespace c))
       (List.map toLowerCase_unit (list_ascii_of_string label))).

Section Statements.

Context {Row : Type}.

(** The mandatory filters in force: [props.filters], none when the prop is
    missing. *)
Definition mandatoryFilters (c : Instance Row) : list (Filter Row) :=
  match filters (props c) with
  | Val fs => fs
  | _ => []
  end.

(** The optional filters that are enabled now. *)
Definition enabledOptional (c : Instance Row) (h : gmap loc (OptionalFilter Row))
    : list (Filter Row) :=
  map filter (List.filter (λ v, truthy (enabled v)) (deref h (state_filters c))).

(** A row survives when every mandatory filter and every enabled optional
    filter returns true on it. *)
Definition survives (c : Instance Row) (h : gmap loc (OptionalFilter Row))
    (r : Row) : Prop :=
  (∀ f, In f (mandatoryFilters c) → f r = true) ∧
  (∀ v o, In v (state_filters c) → h !! v = Some o →
          enabled o = Some true → filter o r = true).

(** The conjunction of a sequence of filters. *)
Definition passes_all (fs : list (Filter Row)) (r : Row) : bool :=
  forallb (λ f, f r) fs.

(** The rows of the array an [applyFilters] call returns. *)
Definition contents (res : option (aref * gmap aref (list Row)))
    : option (list Row) :=
  match res with
  | Some (a, σ) => σ !! a
  | None => None
  end.

(** A left-to-right fold of the filters over the rows. *)
Definition fold_filters (fs : list (Filter Row)) (rows : list Row) : list Row :=
  fold_left (λ acc f, List.filter f acc) fs rows.

(** Every object of the filter state has a boolean [enabled], as it has
    from the constructor on. *)
Definition enabled_is_boolean (c : Instance Row)
    (h : gmap loc (OptionalFilter Row)) : Prop :=
  ∀ v o, In v (state_filters c) → h !! v = Some o → is_Some (enabled o).

(** An object with its [enabled] flag replaced. *)
Definition with_enabled (b : bool) (o : OptionalFilter Row) : OptionalFilter Row :=
  {| label := label o; filter := filter o; enabled := Some b; key := key o |}.

(** Time passing in several steps. *)
Definition advance_all (dts : list Z) (w : Runtime) : Runtime :=
  foldl (λ w dt, advance dt w) w dts.

End Statements.

(** ** A concrete list: patients with a risk level *)

Record Patient : Type := mkPatient {
  uuid : nat;
  risk : string
}.

Definition highRisk : OptionalFilter Patient :=
  {| label := "High Risk";
     filter := λ r, String.eqb (risk r) "high";
     enabled := None;
     key := None |}.

Definition evenUuid : OptionalFilter Patient :=
  {| label := "Even  UUID";
     filter := λ r, Nat.even (uuid r);
     enabled := None;
     key := None |}.

Definition patients : list Patient :=
  [ {| uuid := 1; risk := "high" |};
    {| uuid := 2; risk := "low" |};
    {| uuid := 3; risk := "low" |};
    {| uuid := 4; risk := "high" |} ].

(** The caller's objects: two filter specs and the row array. *)
Definition caller_objects : gmap loc (OptionalFilter Patient) :=
  {[ 1%positive := highRisk; 2%positive := evenUuid ]}.

Definition caller_arrays : gmap aref (list Patient) :=
  {[ 1%positive := patients ]}.

(** [<List rowData={patients} optionalFilters={[highRisk, evenUuid]}
      fetchListActionCreator={fetch} />]: no interval, no mandatory
    filters. *)
Definition sample_props : Props Patient :=
  {| delayInterval := Undefined;
     fetchListActionCreator := Val 0%nat;
     filters := Undefined;
     onMountOtherActionCreators := Undefined;
     optionalFilters := Val [1%positive; 2%positive];
     rowData := 1%positive |}.

(** The same with [delayInterval={0}]. *)
Definition sample_props_no_refresh : Props Patient :=
  {| delayInterval := Val 0;
     fetchListActionCreator := Val 0%nat;
     filters := Undefined;
     onMountOtherActionCreators := Undefined;
     optionalFilters := Val [1%positive; 2%positive];
     rowData := 1%positive |}.

(** Nothing passed but the rows. *)
Definition bare_props : Props Patient :=
  {| delayInterval := Undefined;
     fetchListActionCreator := Undefined;
     filters := Undefined;
     onMountOtherActionCreators := Undefined;
     optionalFilters := Undefined;
     rowData := 1%positive |}.

(** The same with [delayInterval={1000}]. *)
Definition sample_props_refresh : Props Patient :=
  {| delayInterval := Val 1000;
     fetchListActionCreator := Val 0%nat;
     filters := Undefined;
     onMountOtherActionCreators := Undefined;
     optionalFilters := Val [1%positive; 2%positive];
     rowData := 1%positive |}.

(** The sample component after its constructor has run. *)
Definition sample_instance : Instance Patient :=
  fst (constructor (resolveDefaultProps sample_props) caller_objects).

Definition sample_objects : gmap loc (OptionalFilter Patient) :=
  snd (constructor (resolveDefaultProps sample_props) caller_objects).


(** What activation of each sample yields: the completion, the instance, the
    objects and the runtime. *)
Definition activated (p : Props Patient)
    : Completion * Instance Patient * gmap loc (OptionalFilter Patient) * Runtime :=
  activate p caller_objects fresh_runtime.

Definition activated_instance (p : Props Patient) : Instance Patient :=
  snd (fst (fst (activated p))).

Definition activated_objects (p : Props Patient)
    : gmap loc (OptionalFilter Patient) :=
  snd (fst (activated p)).

Definition activated_runtime (p : Props Patient) : Runtime :=
  snd (activated p).

(** Two mandatory filters for the sample rows. *)
Definition isHighRisk : Filter Patient := λ r, String.eqb (risk r) "high".
Definition hasEvenUuid : Filter Patient := λ r, Nat.even (uuid r).

(** ** The rendering

    [render()] (lines 121-145) builds a heading, one checkbox per entry of
    [this.state.filters] and the grid.  The props it hands on are the ones
    left out of [Props] above. *)

(** A column descriptor of the grid, as [List.defaultProps] writes them. *)
Record ColumnDef : Type := mkColumnDef {
  headerName : string;
  hide : option bool;
  field : string
}.

Record DisplayProps : Type := mkDisplayProps {
  columnDefs : JsOpt (list ColumnDef);
  onRowCount : JsOpt nat;
  rowSelectedActionCreators : JsOpt (list nat);
  title : JsOpt string
}.

(** [List.defaultProps] (lines 161-169): [columnDefs] and [title]. *)
Definition default_columnDefs : list ColumnDef :=
  [ {| headerName := "uuid"; hide := Some true; field := "uuid" |};
    {| headerName := "Given Name"; hide := None; field := "name.givenName" |};
    {| headerName := "Family Name"; hide := None; field := "name.familyName" |};
    {| headerName := "Gender"; hide := None; field := "gender" |};
    {| headerName := "Age"; hide := None; field := "age" |} ].

Definition default_title : string := "List".

Definition resolveDefaultDisplayProps (d : DisplayProps) : DisplayProps :=
  {| columnDefs := withDefault default_columnDefs (columnDefs d);
     onRowCount := onRowCount d;
     rowSelectedActionCreators := rowSelectedActionCreators d;
     title := withDefault default_title (title d) |}.

(** A [<Checkbox>]: its [onChange] handler closes over the filter object and
    calls [handleFilterToggle] with that object's key; its child is the
    object's label. *)
Record Checkbox : Type := mkCheckbox {
  onChange_filter : loc;
  children : string
}.

(** The props of [<DataGrid>]. *)
Record DataGrid : Type := mkDataGrid {
  grid_columnDefs : JsOpt (list ColumnDef);
  grid_rowData : aref;
  grid_onRowCount : JsOpt nat;
  grid_rowSelectedActionCreators : JsOpt (list nat)
}.

(** What [render] returns: the text of the first heading, the checkboxes and
    the grid (the second heading is the empty label of line 134). *)
Record Rendered : Type := mkRendered {
  heading : JsOpt string;
  filterCheckboxes : list Checkbox;
  dataGrid : DataGrid
}.

Section Rendering.

Context {Row : Type}.

(** Lines 123-129. *)
Definition render_checkboxes (c : Instance Row)
    (h : gmap loc (OptionalFilter Row)) : list Checkbox :=
  omap (λ v, match h !! v with
             | Some o => Some {| onChange_filter := v; children := label o |}
             | None => None
             end)
       (state_filters c).

(** [render()] (lines 121-145).  The one effect is the allocation of the
    arrays [applyFilters] makes. *)
Definition render (c : Instance Row) (d : DisplayProps)
    (h : gmap loc (OptionalFilter Row)) (σ : gmap aref (list Row))
    : option (Rendered * gmap aref (list Row)) :=
  let boxes := render_checkboxes c h in
  match applyFilters c h (rowData (props c)) σ with
  | Some (rows, σ') =>
      Some ({| heading := title d;
               filterCheckboxes := boxes;
               dataGrid :=
                 {| grid_columnDefs := columnDefs d;
                    grid_rowData := rows;
                    grid_onRowCount := onRowCount d;
                    grid_rowSelectedActionCreators :=
                      rowSelectedActionCreators d |} |}, σ')
  | None => None
  end.

(** ** Sequences of events *)

(** The toggle handler run for a sequence of keys, as on a sequence of
    checkbox changes. *)
Definition toggles (ks : list string) (c : Instance Row)
    (h : gmap loc (OptionalFilter Row))
    : Instance Row * gmap loc (OptionalFilter Row) :=
  foldl (λ s k, handleFilterToggle k (fst s) (snd s)) (c, h) ks.

(** One mount of the instance, time passing in the steps [dts], and the
    unmount; then the same again for every further entry. *)
Definition mount_unmount (dts : list Z) (s : Instance Row * Runtime)
    : Instance Row * Runtime :=
  let '(_, c', w') := componentDidMount (fst s) (snd s) in
  (c', componentWillUnmount c' (advance_all dts w')).

Definition lifecycles (cycles : list (list Z)) (c : Instance Row) (w : Runtime)
    : Instance Row * Runtime :=
  foldl (λ s dts, mount_unmount dts s) (c, w) cycles.

End Rendering.

(** The total of a sequence of time steps. *)
Definition elapsed (dts : list Z) : Z := foldr Z.add 0 dts.

(** A unit that [toLowerCase] leaves alone. *)
Definition is_lower_unit (c : ascii) : bool :=
  Ascii.eqb (toLowerCase_unit c) c.

(** Display props for the sample list. *)
Definition sample_display : DisplayProps :=
  {| columnDefs := Undefined;
     onRowCount := Undefined;
     rowSelectedActionCreators := Undefined;
     title := Val "Patients"%string |}.



Definition sample_props_actions : Props Patient :=
  {| delayInterval := Val 1000;
     fetchListActionCreator := Val 0%nat;
     filters := Val [hasEvenUuid];
     onMountOtherActionCreators := Val [7%nat; 8%nat; 7%nat];
     optionalFilters := Val [1%positive; 2%positive];
     rowData := 1%positive |}.

(** The sample list with a 1000 ms interval, constructed and not yet
    mounted, and what two mounts in a row make of it. *)
Definition sample_instance_refresh : Instance Patient :=
  fst (constructor (resolveDefaultProps sample_props_refresh) caller_objects).

Definition first_mount : Completion * Instance Patient * Runtime :=
  componentDidMount sample_instance_refresh fresh_runtime.

Definition second_mount : Completion * Instance Patient * Runtime :=
  componentDidMount (snd (fst first_mount)) (snd first_mount).

(** Three checkbox changes on the sample list. *)
Definition sample_keys : list string :=
  [ "highrisk"; "evenuuid"; "highrisk" ]%string.

Definition sample_toggled
    : Instance Patient * gmap loc (OptionalFilter Patient) :=
  toggles sample_keys sample_instance sample_objects.

(** A filter state that lists the first sample object twice. *)
Definition doubled_instance : Instance Patient :=
  {| props := bare_props;
     state_filters := [1%positive; 2%positive; 1%positive];
     interval := None |}.

(** The sample list with a mandatory filter, after a change of the
    "High Risk" checkbox: two filters are in force. *)
Definition filtered_state
    : Instance Patient * gmap loc (OptionalFilter Patient) :=
  handleFilterToggle "highrisk"
    (fst (constructor (resolveDefaultProps sample_props_actions) caller_objects))
    (snd (constructor (resolveDefaultProps sample_props_actions) caller_objects)).

(** ** Keys *)

Lemma normalize_unfold c s :
  normalize (String c s) =
  if is_whitespace (toLowerCase_unit c) then normalize s
  else String (toLowerCase_unit c) (normalize s).
Proof. reflexivity. Qed.

(** The code's [toLowerCase().replace(/\s/g,'')] is the label lower-cased
    with the whitespace units filtered out. *)
Lemma normalize_refines_spec (s : string) : normalize s = normalize_spec s.
Proof.
  unfold normalize_spec.
  induction s as [|c s IH]; [reflexivity|].
  rewrite normalize_unfold. cbn [list_ascii_of_string List.map List.filter].
  destruct (is_whitespace (toLowerCase_unit c)); cbn [negb string_of_list_ascii];
    now rewrite IH.
Qed.

(** No whitespace is left in a key. *)
Lemma normalize_no_whitespace (s : string) :
  Forall (λ c, is_whitespace c = false) (list_ascii_of_string (normalize s)).
Proof.
  induction s as [|c s IH]; [constructor|].
  rewrite normalize_unfold.
  destruct (is_whitespace (toLowerCase_unit c)) eqn:Hc; [exact IH|].
  cbn [list_ascii_of_string]. now constructor.
Qed.

Section Engine.

Context {Row : Type}.
Implicit Types (h : gmap loc (OptionalFilter Row)) (c : Instance Row).
Implicit Types (cb : OptionalFilter Row → OptionalFilter Row).
Implicit Types (vs : list loc) (σ : gmap aref (list Row)).

(** ** Mapping a mutating callback over an array of references *)

(** The array that comes back holds the references that went in. *)
Lemma map_in_place_refs cb vs h : fst (map_in_place cb vs h) = vs.
Proof.
  revert h. induction vs as [|v vs IH]; intros h; [reflexivity|].
  cbn [map_in_place]. specialize (IH (alter cb v h)).
  destruct (map_in_place cb vs (alter cb v h)) as [out h2].
  cbn in *. now rewrite IH.
Qed.

Lemma iter_comm cb n (o : OptionalFilter Row) :
  Nat.iter n cb (cb o) = cb (Nat.iter n cb o).
Proof.
  induction n as [|n IH]; [reflexivity|].
  rewrite !Nat.iter_succ. now rewrite IH.
Qed.

Lemma iter_fmap_shift cb n (x : option (OptionalFilter Row)) :
  Nat.iter n cb <$> (cb <$> x) = Nat.iter (S n) cb <$> x.
Proof.
  destruct x as [o|]; [|reflexivity].
  cbn [fmap option_fmap option_map]. f_equal.
  rewrite Nat.iter_succ. apply iter_comm.
Qed.

(** Each object has the callback applied once per occurrence of its
    reference in the array; no other object changes. *)
Lemma map_in_place_lookup cb vs h (v : loc) :
  snd (map_in_place cb vs h) !! v =
  Nat.iter (count_occ Pos.eq_dec vs v) cb <$> h !! v.
Proof.
  revert h. induction vs as [|v0 vs IH]; intros h.
  - cbn. now destruct (h !! v).
  - cbn [map_in_place]. specialize (IH (alter cb v0 h)).
    destruct (map_in_place cb vs (alter cb v0 h)) as [out h2].
    cbn [snd] in *. rewrite IH. cbn [count_occ].
    destruct (Pos.eq_dec v0 v) as [->|Hne].
    + rewrite lookup_alter_eq. apply iter_fmap_shift.
    + now rewrite lookup_alter_ne.
Qed.

Lemma map_in_place_dom cb vs h : dom (snd (map_in_place cb vs h)) = dom h.
Proof.
  apply set_eq. intros v. rewrite !elem_of_dom, map_in_place_lookup.
  now rewrite fmap_is_Some.
Qed.

Lemma iter_idempotent cb n (o : OptionalFilter Row) :
  (∀ x, cb (cb x) = cb x) → Nat.iter (S n) cb o = cb o.
Proof.
  intros Hcb. induction n as [|n IH]; [reflexivity|].
  rewrite Nat.iter_succ, IH. apply Hcb.
Qed.

Lemma iter_fixed cb n (o : OptionalFilter Row) :
  cb o = o → Nat.iter n cb o = o.
Proof.
  intros Ho. induction n as [|n IH]; [reflexivity|].
  now rewrite Nat.iter_succ, IH.
Qed.

Lemma count_occ_pos_In vs (v : loc) :
  In v vs → ∃ n, count_occ Pos.eq_dec vs v = S n.
Proof.
  intros Hin. apply (count_occ_In Pos.eq_dec) in Hin.
  destruct (count_occ Pos.eq_dec vs v) as [|n]; [lia|eauto].
Qed.

(** ** The constructor *)

Lemma init_filter_idempotent (o : OptionalFilter Row) :
  init_filter (init_filter o) = init_filter o.
Proof. reflexivity. Qed.

Lemma constructor_refs (p : Props Row) h specs :
  optionalFilters p = Val specs →
  state_filters (fst (constructor p h)) = specs.
Proof.
  intros Hp. unfold constructor. rewrite Hp.
  pose proof (map_in_place_refs init_filter specs h) as Hrefs.
  destruct (map_in_place init_filter specs h) as [fs h']. exact Hrefs.
Qed.

Lemma constructor_heap (p : Props Row) h specs :
  optionalFilters p = Val specs →
  snd (constructor p h) = snd (map_in_place init_filter specs h).
Proof.
  intros Hp. unfold constructor. rewrite Hp.
  now destruct (map_in_place init_filter specs h).
Qed.

Lemma constructor_lookup_in (p : Props Row) h specs (v : loc) :
  optionalFilters p = Val specs → In v specs →
  snd (constructor p h) !! v = init_filter <$> h !! v.
Proof.
  intros Hp Hin. rewrite (constructor_heap p h specs Hp), map_in_place_lookup.
  destruct (count_occ_pos_In specs v Hin) as [n ->].
  destruct (h !! v) as [o|]; [|reflexivity]. cbn [fmap option_fmap option_map].
  f_equal. apply iter_idempotent, init_filter_idempotent.
Qed.

Lemma constructor_lookup_out (p : Props Row) h specs (v : loc) :
  optionalFilters p = Val specs → ¬ In v specs →
  snd (constructor p h) !! v = h !! v.
Proof.
  intros Hp Hout. rewrite (constructor_heap p h specs Hp), map_in_place_lookup.
  apply (count_occ_not_In Pos.eq_dec) in Hout. rewrite Hout.
  now destruct (h !! v).
Qed.

Lemma constructor_no_specs (p : Props Row) h :
  optionalFilters p = Undefined ∨ optionalFilters p = Null →
  constructor p h = ({| props := p; state_filters := []; interval := None |}, h).
Proof. intros [Hp|Hp]; unfold constructor; now rewrite Hp. Qed.

Lemma deref_constructor (p : Props Row) h specs :
  optionalFilters p = Val specs →
  deref (snd (constructor p h)) specs = List.map init_filter (deref h specs).
Proof.
  intros Hp. unfold deref.
  assert (Hall : ∀ v, In v specs →
            snd (constructor p h) !! v = init_filter <$> h !! v)
    by (intros v Hv; now apply (constructor_lookup_in p h specs)).
  clear Hp. induction specs as [|v vs IH]; [reflexivity|].
  cbn [omap list_omap]. rewrite (Hall v) by now left.
  rewrite IH by (intros v' Hv'; apply Hall; now right).
  now destruct (h !! v).
Qed.

End Engine.

Section Constructor.

Context {Row : Type}.
Implicit Types (h : gmap loc (OptionalFilter Row)) (c : Instance Row).

(** C7: the constructor yields one internal entry per given
    [{label, filter}] pair, each with [enabled = false] and [key] the label
    lower-cased with all whitespace removed; with no specs given the filter
    state is empty; and [normalize("Blood Pressure")] is ["bloodpressure"]. *)
Theorem constructor_initializes (p : Props Row) h c h' :
  constructor p h = (c, h') →
  (∀ specs, optionalFilters p = Val specs →
     length (state_filters c) = length specs ∧
     deref h' (state_filters c) =
       List.map (λ o, {| label := label o;
                         filter := filter o;
                         enabled := Some false;
                         key := Some (normalize_spec (label o)) |})
                (deref h specs)) ∧
  (optionalFilters p = Undefined → state_filters c = [] ∧ h' = h) ∧
  normalize "Blood Pressure" = "bloodpressure"%string.
Proof.
  intros Hc. split; [|split; [|reflexivity]].
  - intros specs Hp.
    pose proof (constructor_refs p h specs Hp) as Hrefs.
    pose proof (deref_constructor p h specs Hp) as Hderef.
    rewrite Hc in Hrefs, Hderef. cbn [fst snd] in Hrefs, Hderef.
    rewrite Hrefs. split; [reflexivity|]. rewrite Hderef.
    apply map_ext. intros o. unfold init_filter.
    now rewrite normalize_refines_spec.
  - intros Hp. rewrite constructor_no_specs in Hc by now left.
    injection Hc as <- <-. now split.
Qed.

(** C10: the constructor writes [enabled = false] and the normalized [key]
    (the label lower-cased, whitespace removed) onto the caller's own
    objects: the component's filter array holds the caller's references, no
    object is allocated, the objects the caller passed carry the two new
    fields afterwards, and nothing else changes. *)
Theorem constructor_mutates_caller_objects (p : Props Row) h specs c h' :
  optionalFilters p = Val specs →
  constructor p h = (c, h') →
  state_filters c = specs ∧
  dom h' = dom h ∧
  (∀ v o, In v specs → h !! v = Some o →
     h' !! v = Some {| label := label o;
                       filter := filter o;
                       enabled := Some false;
                       key := Some (normalize_spec (label o)) |}) ∧
  (∀ v, ¬ In v specs → h' !! v = h !! v).
Proof.
  intros Hp Hc.
  pose proof (constructor_refs p h specs Hp) as Hrefs.
  pose proof (constructor_heap p h specs Hp) as Hheap.
  pose proof (constructor_lookup_in p h specs) as Hin.
  pose proof (constructor_lookup_out p h specs) as Hout.
  rewrite Hc in Hrefs, Hheap, Hin, Hout. cbn [fst snd] in *.
  repeat split.
  - exact Hrefs.
  - rewrite Hheap. apply map_in_place_dom.
  - intros v o Hv Ho. rewrite (Hin v Hp Hv), Ho.
    cbn [fmap option_fmap option_map]. unfold init_filter.
    now rewrite normalize_refines_spec.
  - intros v Hv. now apply Hout.
Qed.

End Constructor.

Section Toggle.

Context {Row : Type}.
Implicit Types (h : gmap loc (OptionalFilter Row)) (c : Instance Row).
Implicit Types (o : OptionalFilter Row).

Lemma key_matches_true o k : key o = Some k → key_matches o k = true.
Proof. unfold key_matches. intros ->. apply String.eqb_refl. Qed.

Lemma key_matches_false o k : key o ≠ Some k → key_matches o k = false.
Proof.
  unfold key_matches. destruct (key o) as [k'|]; [|reflexivity].
  intros Hne. apply String.eqb_neq. congruence.
Qed.

Lemma toggle_filter_match o k b :
  key o = Some k → enabled o = Some b →
  toggle_filter k o = with_enabled (negb b) o.
Proof.
  intros Hk Hb. unfold toggle_filter, with_enabled.
  rewrite (key_matches_true o k Hk), Hb. now destruct b.
Qed.

Lemma toggle_filter_other o k : key o ≠ Some k → toggle_filter k o = o.
Proof.
  intros Hk. unfold toggle_filter. now rewrite (key_matches_false o k Hk).
Qed.

Lemma toggle_filter_involutive o k :
  is_Some (enabled o) → toggle_filter k (toggle_filter k o) = o.
Proof.
  intros [b Hb]. destruct o as [l f e ky]. cbn in Hb. subst e.
  unfold toggle_filter, key_matches. cbn.
  destruct ky as [k'|]; [|reflexivity].
  destruct (String.eqb k' k) eqn:Hk; cbn; rewrite ?Hk; [|reflexivity].
  now destruct b.
Qed.

Lemma iter_involutive (cb : OptionalFilter Row → OptionalFilter Row) n o :
  cb (cb o) = o → Nat.iter n cb (Nat.iter n cb o) = o.
Proof.
  intros Ho. induction n as [|n IH]; [reflexivity|].
  rewrite !Nat.iter_succ, iter_comm, IH. exact Ho.
Qed.

(** The handler returns the same instance; the store is the one the
    callback has been mapped over. *)
Lemma handleFilterToggle_eq k c h :
  handleFilterToggle k c h =
  (c, snd (map_in_place (toggle_filter k) (state_filters c) h)).
Proof.
  unfold handleFilterToggle.
  pose proof (map_in_place_refs (toggle_filter k) (state_filters c) h) as Hrefs.
  destruct (map_in_place (toggle_filter k) (state_filters c) h) as [fs h1].
  cbn [fst snd] in *. subst fs. now destruct c.
Qed.

Lemma constructor_enabled_is_boolean (p : Props Row) h :
  enabled_is_boolean (fst (constructor p h)) (snd (constructor p h)).
Proof.
  intros v o Hv Ho.
  destruct (optionalFilters p) as [| |specs] eqn:Hp.
  - rewrite constructor_no_specs in Hv by now left. destruct Hv.
  - rewrite constructor_no_specs in Hv by now right. destruct Hv.
  - rewrite (constructor_refs p h specs Hp) in Hv.
    rewrite (constructor_lookup_in p h specs v Hp Hv) in Ho.
    destruct (h !! v) as [o0|]; [|discriminate].
    injection Ho as <-. now eexists.
Qed.

Lemma toggle_enabled_is_boolean k c h :
  enabled_is_boolean c h →
  enabled_is_boolean (fst (handleFilterToggle k c h))
                     (snd (handleFilterToggle k c h)).
Proof.
  intros Hok v o Hv Ho. rewrite handleFilterToggle_eq in Hv, Ho.
  cbn [fst snd] in Hv, Ho. rewrite map_in_place_lookup in Ho.
  destruct (h !! v) as [o0|] eqn:Ho0; [|discriminate].
  injection Ho as <-. specialize (Hok v o0 Hv Ho0).
  generalize (count_occ Pos.eq_dec (state_filters c) v). intros n.
  induction n as [|n IH]; [exact Hok|].
  rewrite Nat.iter_succ. unfold toggle_filter at 1.
  destruct (key_matches _ k); [now eexists | exact IH].
Qed.

(** C5: toggling the same key twice in a row brings every filter object,
    and with it the whole filter state, back to what it was. *)
Theorem toggle_twice_restores k c h c1 h1 :
  enabled_is_boolean c h →
  handleFilterToggle k c h = (c1, h1) →
  handleFilterToggle k c1 h1 = (c, h).
Proof.
  intros Hok H1. rewrite handleFilterToggle_eq in H1. injection H1 as <- <-.
  rewrite handleFilterToggle_eq. f_equal. apply map_eq. intros v.
  rewrite !map_in_place_lookup.
  destruct (h !! v) as [o|] eqn:Ho; [|reflexivity].
  cbn [fmap option_fmap option_map]. f_equal.
  destruct (in_dec Pos.eq_dec v (state_filters c)) as [Hin|Hout].
  - apply iter_involutive, toggle_filter_involutive. now apply (Hok v).
  - apply (count_occ_not_In Pos.eq_dec) in Hout. now rewrite Hout.
Qed.

(** C6: when exactly one entry of the filter state has the key, a toggle
    flips the [enabled] flag of that object and changes nothing else, in that
    object or in any other; when no entry has the key, nothing changes. *)
Theorem toggle_flips_only_match k c h :
  (∀ v o b,
     h !! v = Some o → key o = Some k → enabled o = Some b →
     count_occ Pos.eq_dec (state_filters c) v = 1%nat →
     (∀ v' o', In v' (state_filters c) → v' ≠ v →
               h !! v' = Some o' → key o' ≠ Some k) →
     handleFilterToggle k c h = (c, <[v := with_enabled (negb b) o]> h)) ∧
  ((∀ v o, In v (state_filters c) → h !! v = Some o → key o ≠ Some k) →
   handleFilterToggle k c h = (c, h)).
Proof.
  split.
  - intros v o b Ho Hk Hb Hone Huniq.
    rewrite handleFilterToggle_eq. f_equal. apply map_eq. intros v'.
    rewrite map_in_place_lookup.
    destruct (decide (v = v')) as [<-|Hne].
    + rewrite lookup_insert_eq, Hone, Ho. cbn. f_equal.
      now apply toggle_filter_match.
    + rewrite lookup_insert_ne by exact Hne.
      destruct (h !! v') as [o'|] eqn:Ho'; [|reflexivity].
      cbn [fmap option_fmap option_map]. f_equal.
      destruct (in_dec Pos.eq_dec v' (state_filters c)) as [Hin|Hout].
      * apply iter_fixed, toggle_filter_other.
        apply (Huniq v' o' Hin); [congruence | exact Ho'].
      * apply (count_occ_not_In Pos.eq_dec) in Hout. now rewrite Hout.
  - intros Hnone. rewrite handleFilterToggle_eq. f_equal. apply map_eq.
    intros v. rewrite map_in_place_lookup.
    destruct (h !! v) as [o|] eqn:Ho; [|reflexivity].
    cbn [fmap option_fmap option_map]. f_equal.
    destruct (in_dec Pos.eq_dec v (state_filters c)) as [Hin|Hout].
    + apply iter_fixed, toggle_filter_other. now apply (Hnone v).
    + apply (count_occ_not_In Pos.eq_dec) in Hout. now rewrite Hout.
Qed.

End Toggle.

Section Apply.

Context {Row : Type}.
Implicit Types (h : gmap loc (OptionalFilter Row)) (c : Instance Row).
Implicit Types (fs : list (Filter Row)) (σ : gmap aref (list Row)).
Implicit Types (rows : list Row).

(** ** The recursive helper, one filter at a time *)

Lemma applyFiltersHelper_nil (lst : aref) σ :
  applyFiltersHelper lst [] σ = Some (lst, σ).
Proof. now simp applyFiltersHelper. Qed.

(** With at least one filter the last one is applied to the array and the
    helper goes on with the filters before it. *)
Lemma applyFiltersHelper_snoc (lst : aref) fs (f : Filter Row) σ :
  applyFiltersHelper lst (fs ++ [f]) σ =
  match array_filter f lst σ with
  | Some (lst', σ') => applyFiltersHelper lst' fs σ'
  | None => None
  end.
Proof.
  rewrite applyFiltersHelper_equation_1.
  destruct (Nat.eq_dec (length (fs ++ [f])) 0%nat) as [Hz|Hlen].
  { exfalso. rewrite length_app in Hz. cbn in Hz. lia. }
  rewrite applyFiltersHelper_clause_1_equation_2.
  assert (Hn : (length (fs ++ [f]) - 1)%nat = length fs)
    by (rewrite length_app; cbn; lia).
  assert (Hlast : (fs ++ [f]) !! (length (fs ++ [f]) - 1)%nat = Some f).
  { rewrite Hn. rewrite lookup_app_r by lia.
    now replace (length fs - length fs)%nat with 0%nat by lia. }
  rewrite Hlast, applyFiltersHelper_clause_1_clause_2_equation_1.
  destruct (array_filter f lst σ) as [[lst' σ']|].
  - rewrite applyFiltersHelper_clause_1_clause_2_clause_1_equation_1.
    rewrite Hn. now rewrite take_app_length.
  - now rewrite applyFiltersHelper_clause_1_clause_2_clause_1_equation_2.
Qed.

Lemma array_filter_alloc (f : Filter Row) (arr : aref) σ rows :
  σ !! arr = Some rows →
  ∃ a, σ !! a = None ∧
       array_filter f arr σ = Some (a, <[a := List.filter f rows]> σ).
Proof.
  intros Harr. unfold array_filter. rewrite Harr.
  exists (fresh (dom σ)). split; [|reflexivity].
  apply not_elem_of_dom, is_fresh.
Qed.

Lemma passes_all_snoc fs (f : Filter Row) (r : Row) :
  passes_all (fs ++ [f]) r = f r && passes_all fs r.
Proof.
  unfold passes_all. rewrite forallb_app. cbn.
  rewrite andb_true_r. apply andb_comm.
Qed.

Lemma filter_twice (p q : Row → bool) rows :
  List.filter p (List.filter q rows) = List.filter (λ r, q r && p r) rows.
Proof.
  induction rows as [|r rows IH]; [reflexivity|]. cbn.
  destruct (q r); cbn; [destruct (p r)|]; now rewrite IH.
Qed.

Lemma filter_no_filters rows : List.filter (passes_all []) rows = rows.
Proof.
  induction rows as [|r rows IH]; [reflexivity|].
  cbn [List.filter passes_all forallb]. now f_equal.
Qed.

(** The helper returns, for a live array, an array holding the rows that
    pass every filter; the arrays that were there before are all kept. *)
Lemma applyFiltersHelper_result fs : ∀ (lst : aref) σ rows,
  σ !! lst = Some rows →
  ∃ out σ',
    applyFiltersHelper lst fs σ = Some (out, σ') ∧
    σ ⊆ σ' ∧
    σ' !! out = Some (List.filter (passes_all fs) rows).
Proof.
  induction fs as [|f fs IH] using rev_ind; intros lst σ rows Hlst.
  - exists lst, σ. rewrite applyFiltersHelper_nil.
    split; [reflexivity|]. split; [reflexivity|].
    rewrite Hlst. f_equal. symmetry. apply filter_no_filters.
  - destruct (array_filter_alloc f lst σ rows Hlst) as (a & Hfresh & Ha).
    destruct (IH a (<[a := List.filter f rows]> σ) (List.filter f rows))
      as (out & σ' & Hrec & Hsub & Hout); [apply lookup_insert_eq|].
    exists out, σ'. rewrite applyFiltersHelper_snoc, Ha. split; [exact Hrec|].
    split.
    + etrans; [|exact Hsub]. now apply insert_subseteq.
    + rewrite Hout, filter_twice. f_equal. apply filter_ext.
      intros r. now rewrite passes_all_snoc.
Qed.

(** ** What the pipeline holds *)

Lemma truthy_true (b : option bool) : truthy b = true ↔ b = Some true.
Proof. destruct b as [[|]|]; cbn; split; congruence. Qed.

Lemma In_deref h (vs : list loc) (o : OptionalFilter Row) :
  In o (deref h vs) ↔ ∃ v, In v vs ∧ h !! v = Some o.
Proof.
  unfold deref. rewrite <- list_elem_of_In, list_elem_of_omap.
  split; intros (v & Hv & Ho); exists v; split;
    solve [exact Ho | now apply list_elem_of_In].
Qed.

Lemma pipeline_eq c h : pipeline c h = mandatoryFilters c ++ enabledOptional c h.
Proof. reflexivity. Qed.

Lemma passes_all_survives c h (r : Row) :
  passes_all (pipeline c h) r = true ↔ survives c h r.
Proof.
  rewrite pipeline_eq. unfold passes_all, survives, enabledOptional.
  rewrite forallb_app, andb_true_iff, !forallb_forall.
  split; intros [Hm Ho]; (split; [exact Hm|]).
  - intros v o Hv Hlook Hen. apply Ho, in_map, filter_In. split.
    + apply In_deref. eauto.
    + now apply truthy_true.
  - intros f (o & <- & Hin)%in_map_iff.
    apply filter_In in Hin as [(v & Hv & Hlook)%In_deref Hen].
    apply (Ho v o Hv Hlook). now apply truthy_true.
Qed.

Lemma passes_all_perm fs fs' (r : Row) :
  Permutation fs fs' → passes_all fs r = passes_all fs' r.
Proof.
  unfold passes_all.
  induction 1 as [|f l l' _ IH|f g l|l1 l2 l3 _ IH1 _ IH2]; cbn.
  - reflexivity.
  - now rewrite IH.
  - destruct (f r), (g r); reflexivity.
  - now rewrite IH1.
Qed.

Lemma fold_filters_passes_all fs : ∀ rows,
  fold_filters fs rows = List.filter (passes_all fs) rows.
Proof.
  unfold fold_filters.
  induction fs as [|f fs IH]; intros rows; cbn [fold_left].
  - symmetry. apply filter_no_filters.
  - rewrite IH, filter_twice. reflexivity.
Qed.

(** C1: for a live row array, [applyFilters] returns an array that holds
    exactly the rows on which every mandatory filter and every enabled
    optional filter returns true, in their order; with no filter in force it
    returns all rows, and with no rows the empty array. *)
Theorem applyFilters_keeps_survivors c h (lst : aref) σ rows :
  σ !! lst = Some rows →
  ∃ out σ',
    applyFilters c h lst σ = Some (out, σ') ∧
    σ' !! out = Some (List.filter (passes_all (pipeline c h)) rows) ∧
    (∀ r, passes_all (pipeline c h) r = true ↔ survives c h r) ∧
    (mandatoryFilters c = [] → enabledOptional c h = [] →
     σ' !! out = Some rows) ∧
    (rows = [] → σ' !! out = Some []).
Proof.
  intros Hlst.
  destruct (applyFiltersHelper_result (pipeline c h) lst σ rows Hlst)
    as (out & σ' & Hrun & _ & Hout).
  exists out, σ'.
  split; [exact Hrun|]. split; [exact Hout|].
  split; [intros r; apply passes_all_survives|]. split.
  - intros Hm He. revert Hrun. unfold applyFilters.
    rewrite pipeline_eq, Hm, He. cbn [app].
    rewrite applyFiltersHelper_nil. now intros [= <- <-].
  - intros ->. exact Hout.
Qed.

(** C3: the surviving rows do not depend on the order in which the filters
    are applied: any two orderings of the same filters give the same rows,
    and the code's last-to-first application gives what a left-to-right fold
    gives. *)
Theorem filter_order_irrelevant (lst : aref) σ rows fs fs' :
  σ !! lst = Some rows →
  Permutation fs fs' →
  contents (applyFiltersHelper lst fs σ) =
    contents (applyFiltersHelper lst fs' σ) ∧
  contents (applyFiltersHelper lst fs σ) = Some (fold_filters fs rows) ∧
  contents (applyFiltersHelper lst fs σ) = Some (fold_filters (rev fs) rows).
Proof.
  intros Hlst Hperm.
  destruct (applyFiltersHelper_result fs lst σ rows Hlst)
    as (out & σ1 & -> & _ & Hout).
  destruct (applyFiltersHelper_result fs' lst σ rows Hlst)
    as (out' & σ2 & -> & _ & Hout').
  cbn [contents]. rewrite Hout, Hout', !fold_filters_passes_all.
  repeat split; f_equal; apply filter_ext; intros r.
  - now apply passes_all_perm.
  - apply passes_all_perm, Permutation_rev.
Qed.

(** C9: [applyFilters] leaves the input row array as it was, and every other
    array that existed before the call too; what it returns for a filtered
    list is a newly allocated array. *)
Theorem applyFilters_preserves_input c h (lst : aref) σ rows :
  σ !! lst = Some rows →
  ∃ out σ',
    applyFilters c h lst σ = Some (out, σ') ∧
    σ' !! lst = Some rows ∧
    (∀ (a : aref) rs, σ !! a = Some rs → σ' !! a = Some rs).
Proof.
  intros Hlst.
  destruct (applyFiltersHelper_result (pipeline c h) lst σ rows Hlst)
    as (out & σ' & Hrun & Hsub & _).
  exists out, σ'. split; [exact Hrun|].
  split; [|intros a rs Ha]; eapply lookup_weaken; eauto.
Qed.

End Apply.

(** ** Timers and simulated time *)

Lemma advance_timers dt w : timers (advance dt w) = timers w.
Proof. unfold advance. now destruct (dt <=? 0). Qed.

Lemma advance_no_timers dt w :
  timers w = ∅ → fetchCalls (advance dt w) = fetchCalls w.
Proof.
  intros Hw. unfold advance. destruct (dt <=? 0); [reflexivity|].
  cbn [fetchCalls]. rewrite Hw. apply map_fold_empty.
Qed.

Lemma advance_all_timers dts : ∀ w, timers (advance_all dts w) = timers w.
Proof.
  unfold advance_all. induction dts as [|dt dts IH]; intros w; [reflexivity|].
  cbn [foldl]. now rewrite IH, advance_timers.
Qed.

Lemma advance_all_no_timers dts : ∀ w,
  timers w = ∅ → fetchCalls (advance_all dts w) = fetchCalls w.
Proof.
  unfold advance_all. induction dts as [|dt dts IH]; intros w Hw; [reflexivity|].
  cbn [foldl]. rewrite IH by now rewrite advance_timers.
  now apply advance_no_timers.
Qed.

Lemma call_actions_frame actions : ∀ w,
  timers (foldl call_action w actions) = timers w ∧
  fetchCalls (foldl call_action w actions) = fetchCalls w ∧
  now (foldl call_action w actions) = now w ∧
  actionCalls (foldl call_action w actions) = actionCalls w ++ actions.
Proof.
  induction actions as [|a actions IH]; intros w; cbn [foldl].
  - now rewrite app_nil_r.
  - destruct (IH (call_action w a)) as (-> & -> & -> & ->). cbn.
    now rewrite <- app_assoc.
Qed.

Lemma clearInterval_none w : clearInterval None w = w.
Proof. reflexivity. Qed.

Section Scheduler.

Context {Row : Type}.
Implicit Types (h : gmap loc (OptionalFilter Row)) (c : Instance Row).
Implicit Types (p : Props Row).

(** The other action creators touch neither the timers nor the fetch count
    nor the instance. *)
Lemma mountOtherActions_frame c w r c' w' :
  mountOtherActions c w = (r, c', w') →
  c' = c ∧ timers w' = timers w ∧ fetchCalls w' = fetchCalls w ∧
  now w' = now w ∧
  (r = TypeError ↔ onMountOtherActionCreators (props c) = Null).
Proof.
  unfold mountOtherActions.
  destruct (onMountOtherActionCreators (props c)) as [| |actions];
    intros [= <- <- <-].
  - repeat split; congruence.
  - repeat split; congruence.
  - destruct (call_actions_frame actions w) as (Ht & Hf & Hn & _).
    repeat split; congruence.
Qed.

(** Without a fetch function [componentDidMount] only runs the other action
    creators. *)
Lemma componentDidMount_no_fetch c w :
  fetchListActionCreator (props c) = Undefined →
  componentDidMount c w = mountOtherActions c w.
Proof. unfold componentDidMount. now intros ->. Qed.

(** With a fetch function and an interval that is [undefined], [null] or
    not positive, the fetch function is called once and no timer is armed. *)
Lemma componentDidMount_no_interval c w f :
  fetchListActionCreator (props c) = Val f →
  (delayInterval (props c) = Undefined ∨ delayInterval (props c) = Null ∨
   ∃ d, delayInterval (props c) = Val d ∧ d ≤ 0) →
  componentDidMount c w = mountOtherActions c (call_fetch w).
Proof.
  unfold componentDidMount. intros -> [->|[->|(d & -> & Hd)]]; try reflexivity.
  now rewrite (proj2 (Z.ltb_ge 0 d) Hd).
Qed.

(** With a fetch function and a positive interval, the fetch function is
    called once and a timer of that period is armed under a new handle, which
    is kept in [this.interval]. *)
Lemma componentDidMount_interval c w f d :
  fetchListActionCreator (props c) = Val f →
  delayInterval (props c) = Val d → 0 < d →
  componentDidMount c w =
  mountOtherActions
    {| props := props c; state_filters := state_filters c;
       interval := Some (next_timer w) |}
    (snd (setInterval d (call_fetch w))).
Proof.
  unfold componentDidMount. intros -> -> Hd.
  now rewrite (proj2 (Z.ltb_lt 0 d) Hd).
Qed.

(** After [componentDidMount] on a new instance, in a runtime without
    timers, either no timer is armed and [this.interval] is unset, or
    [this.interval] is the handle of the one armed timer. *)
Lemma componentDidMount_one_timer c w r c' w' :
  interval c = None → timers w = ∅ →
  componentDidMount c w = (r, c', w') →
  (interval c' = None ∧ timers w' = ∅) ∨
  (∃ id tm, interval c' = Some id ∧ timers w' = {[ id := tm ]}).
Proof.
  intros Hc Hw Hm.
  destruct (fetchListActionCreator (props c)) as [| |f] eqn:Hf.
  - rewrite componentDidMount_no_fetch in Hm by exact Hf.
    apply mountOtherActions_frame in Hm as (-> & -> & _). now left.
  - unfold componentDidMount in Hm. rewrite Hf in Hm.
    injection Hm as <- <- <-. now left.
  - destruct (delayInterval (props c)) as [| |d] eqn:Hd;
      [| |destruct (Z_lt_le_dec 0 d) as [Hpos|Hle]].
    1, 2, 4: rewrite (componentDidMount_no_interval c w f Hf) in Hm
               by (rewrite Hd; eauto);
             apply mountOtherActions_frame in Hm as (-> & -> & _); now left.
    rewrite (componentDidMount_interval c w f d Hf Hd Hpos) in Hm.
    apply mountOtherActions_frame in Hm as (-> & -> & _). right.
    eexists _, _. split; [reflexivity|]. cbn. now rewrite Hw.
Qed.

Lemma constructor_interval p h : interval (fst (constructor p h)) = None.
Proof.
  unfold constructor. destruct (optionalFilters p) as [| |specs]; try reflexivity.
  now destruct (map_in_place init_filter specs h).
Qed.

Lemma constructor_props p h : props (fst (constructor p h)) = p.
Proof.
  unfold constructor. destruct (optionalFilters p) as [| |specs]; try reflexivity.
  now destruct (map_in_place init_filter specs h).
Qed.

(** [activate], step by step. *)
Lemma activate_eq p h w r c h' w' :
  activate p h w = (r, c, h', w') →
  h' = snd (constructor (resolveDefaultProps p) h) ∧
  componentDidMount (fst (constructor (resolveDefaultProps p) h)) w = (r, c, w').
Proof.
  unfold activate. destruct (constructor (resolveDefaultProps p) h) as [c0 h0].
  cbn [fst snd]. destruct (componentDidMount c0 w) as [[r0 c1] w1].
  now intros [= <- <- <- <-].
Qed.

End Scheduler.

Section Lifecycle.

Context {Row : Type}.
Implicit Types (h : gmap loc (OptionalFilter Row)) (c : Instance Row).
Implicit Types (p : Props Row).

(** [componentDidMount] changes nothing of the instance but
    [this.interval]. *)
Lemma componentDidMount_instance c w r c' w' :
  componentDidMount c w = (r, c', w') →
  props c' = props c ∧ state_filters c' = state_filters c.
Proof.
  unfold componentDidMount.
  destruct (fetchListActionCreator (props c)) as [| |f].
  - intros (-> & _)%mountOtherActions_frame. now split.
  - intros [= <- <- <-]. now split.
  - destruct (delayInterval (props c)) as [| |d];
      [| |destruct (0 <? d); [cbn [setInterval]|]];
      intros (-> & _)%mountOtherActions_frame; now split.
Qed.

Lemma activate_instance p h w r c h' w' :
  activate p h w = (r, c, h', w') →
  props c = resolveDefaultProps p ∧
  state_filters c = state_filters (fst (constructor (resolveDefaultProps p) h)).
Proof.
  intros (_ & Hm)%activate_eq.
  apply componentDidMount_instance in Hm as [-> ->].
  now rewrite constructor_props.
Qed.

(** C2, as the code has it: when the interval given to the component is
    [null] or not positive, activation with a fetch function calls it exactly
    once and arms no timer, so the call count stays at one however much time
    passes; an interval that is not given at all takes the default of
    10000 ms and arms a timer of that period. *)
Theorem nonpositive_interval_fetches_once p h w f r c h' w' :
  timers w = ∅ →
  fetchListActionCreator p = Val f →
  activate p h w = (r, c, h', w') →
  ((delayInterval p = Null ∨ ∃ d, delayInterval p = Val d ∧ d ≤ 0) →
   fetchCalls w' = S (fetchCalls w) ∧
   interval c = None ∧
   timers w' = ∅ ∧
   ∀ dt, fetchCalls (advance dt w') = S (fetchCalls w)) ∧
  (delayInterval p = Undefined →
   fetchCalls w' = S (fetchCalls w) ∧
   interval c = Some (next_timer w) ∧
   timers w' = {[ next_timer w := {| period := 10000; armed_at := now w |} ]}).
Proof.
  intros Hw Hf (_ & Hm)%activate_eq.
  set (c0 := fst (constructor (resolveDefaultProps p) h)) in Hm.
  assert (Hp0 : props c0 = resolveDefaultProps p) by apply constructor_props.
  assert (Hi0 : interval c0 = None) by apply constructor_interval.
  assert (Hf0 : fetchListActionCreator (props c0) = Val f)
    by now rewrite Hp0.
  split.
  - intros Hd.
    rewrite (componentDidMount_no_interval c0 w f Hf0) in Hm.
    + apply mountOtherActions_frame in Hm as (-> & Ht & Hn & _).
      cbn in Ht, Hn. rewrite Hw in Ht.
      repeat split; try assumption.
      intros dt. now rewrite advance_no_timers.
    + rewrite Hp0. cbn [resolveDefaultProps delayInterval].
      destruct Hd as [->|(d & -> & Hd)]; cbn; eauto.
  - intros Hd.
    rewrite (componentDidMount_interval c0 w f 10000 Hf0) in Hm.
    + apply mountOtherActions_frame in Hm as (-> & Ht & Hn & _).
      cbn in Ht, Hn. rewrite Hw in Ht. now repeat split.
    + rewrite Hp0. cbn [resolveDefaultProps delayInterval]. now rewrite Hd.
    + lia.
Qed.

(** C4: [componentWillUnmount] cancels the timer that activation armed, so
    that however time passes afterwards the fetch function is not called
    again; and it changes nothing, and does not fail, on an instance that was
    never mounted or whose mount armed no timer. *)
Theorem unmount_cancels_timer p h w r c h' w1 dts :
  timers w = ∅ →
  activate p h w = (r, c, h', w1) →
  timers (componentWillUnmount c (advance_all dts w1)) = ∅ ∧
  (∀ dts', fetchCalls (advance_all dts'
                         (componentWillUnmount c (advance_all dts w1))) =
           fetchCalls (advance_all dts w1)) ∧
  (∀ w0, componentWillUnmount
           (fst (constructor (resolveDefaultProps p) h)) w0 = w0) ∧
  (interval c = None → ∀ w0, componentWillUnmount c w0 = w0).
Proof.
  intros Hw (_ & Hm)%activate_eq.
  apply componentDidMount_one_timer in Hm;
    [|apply constructor_interval|exact Hw].
  assert (Hoff : timers (componentWillUnmount c (advance_all dts w1)) = ∅).
  { unfold componentWillUnmount.
    destruct Hm as [[-> Ht]|(id & tm & -> & Ht)]; cbn [clearInterval timers];
      rewrite advance_all_timers, Ht; [reflexivity|].
    apply delete_singleton_eq. }
  split; [exact Hoff|]. split; [|split].
  - intros dts'. rewrite advance_all_no_timers by exact Hoff.
    unfold componentWillUnmount. now destruct (interval c).
  - intros w0. unfold componentWillUnmount. now rewrite constructor_interval.
  - intros Hc w0. unfold componentWillUnmount. now rewrite Hc.
Qed.

(** C8: without a fetch function, activation calls no fetch and arms no
    timer whatever the interval is, and it completes normally unless the
    other action creators are [null]; without mandatory filters none is
    applied; without optional filter specs the filter state is empty and no
    object is touched; with neither, [applyFilters] hands back the row array
    it was given. *)
Theorem missing_inputs_are_no_ops p h w r c h' w' :
  activate p h w = (r, c, h', w') →
  (fetchListActionCreator p = Undefined →
   fetchCalls w' = fetchCalls w ∧ timers w' = timers w ∧ interval c = None ∧
   (onMountOtherActionCreators p ≠ Null → r = Normal) ∧
   (onMountOtherActionCreators p = Undefined → w' = w)) ∧
  (filters p = Undefined → mandatoryFilters c = []) ∧
  (optionalFilters p = Undefined →
   state_filters c = [] ∧ h' = h ∧ enabledOptional c h' = []) ∧
  (filters p = Undefined → optionalFilters p = Undefined →
   ∀ σ : gmap aref (list Row),
     applyFilters c h' (rowData p) σ = Some (rowData p, σ)).
Proof.
  intros Hact.
  destruct (activate_instance p h w r c h' w' Hact) as [Hprops Hstate].
  destruct (activate_eq p h w r c h' w' Hact) as [Hh' Hm].
  assert (Hmand : filters p = Undefined → mandatoryFilters c = []).
  { intros Hf. unfold mandatoryFilters. rewrite Hprops. cbn. now rewrite Hf. }
  assert (Hopt : optionalFilters p = Undefined →
                 state_filters c = [] ∧ h' = h ∧ enabledOptional c h' = []).
  { intros Ho. rewrite constructor_no_specs in Hstate, Hh' by now left.
    cbn in Hstate, Hh'. unfold enabledOptional. now rewrite Hstate. }
  split; [|split; [exact Hmand|split; [exact Hopt|]]].
  - intros Hf.
    rewrite componentDidMount_no_fetch in Hm
      by now rewrite constructor_props.
    pose proof Hm as Hrun.
    apply mountOtherActions_frame in Hm as (-> & Ht & Hn & _ & Herr).
    rewrite constructor_props in Herr. cbn in Herr.
    repeat split; try assumption.
    + apply constructor_interval.
    + intros Hnn. destruct r; [reflexivity|].
      exfalso. now apply Hnn, Herr.
    + intros Hu. unfold mountOtherActions in Hrun.
      rewrite constructor_props in Hrun. cbn in Hrun. rewrite Hu in Hrun.
      now injection Hrun.
  - intros Hf Ho σ. unfold applyFilters.
    destruct (Hopt Ho) as (_ & _ & He).
    rewrite pipeline_eq, (Hmand Hf), He. apply applyFiltersHelper_nil.
Qed.

End Lifecycle.

(** ** The properties on the sample list *)

Lemma activated_eq (p : Props Patient) :
  activate p caller_objects fresh_runtime =
  (fst (fst (fst (activated p))), activated_instance p,
   activated_objects p, activated_runtime p).
Proof.
  unfold activated_instance, activated_objects, activated_runtime, activated.
  now destruct (activate p caller_objects fresh_runtime) as [[[r c] h] w].
Qed.

Lemma sample_constructed :
  constructor (resolveDefaultProps sample_props) caller_objects =
  (sample_instance, sample_objects).
Proof.
  unfold sample_instance, sample_objects.
  now destruct (constructor (resolveDefaultProps sample_props) caller_objects).
Qed.

(** The scenario of the "High Risk" checkbox: all rows at first, the two
    high-risk rows after a toggle of ["highrisk"], all rows again after a
    second toggle. *)
Example highRisk_scenario :
  let c := sample_instance in
  let h0 := sample_objects in
  let h1 := snd (handleFilterToggle "highrisk" c h0) in
  let h2 := snd (handleFilterToggle "highrisk" c h1) in
  contents (applyFilters c h0 1%positive caller_arrays) = Some patients ∧
  contents (applyFilters c h1 1%positive caller_arrays) =
    Some [ {| uuid := 1; risk := "high" |}; {| uuid := 4; risk := "high" |} ] ∧
  contents (applyFilters c h2 1%positive caller_arrays) = Some patients.
Proof. vm_compute. repeat split. Qed.

(** The scenario of a 1000 ms interval: one call at once, two more in the
    first 2500 ms, none in the 10000 ms after the unmount. *)
Example refresh_scenario :
  let c := activated_instance sample_props_refresh in
  let w := activated_runtime sample_props_refresh in
  fetchCalls w = 1%nat ∧
  fetchCalls (advance 2500 w) = 3%nat ∧
  fetchCalls (advance 10000 (componentWillUnmount c (advance 2500 w))) = 3%nat.
Proof. vm_compute. repeat split. Qed.

(** Two labels with the same key are toggled together. *)
Example shared_key_toggles_both :
  let a := {| label := "A b"; filter := isHighRisk; enabled := Some false;
              key := Some (normalize "A b") |} in
  let b := {| label := "ab"; filter := hasEvenUuid; enabled := Some false;
              key := Some (normalize "ab") |} in
  let c := {| props := bare_props; state_filters := [1%positive; 2%positive];
              interval := None |} in
  let h := snd (handleFilterToggle "ab" c {[ 1%positive := a; 2%positive := b ]}) in
  (enabled <$> h !! 1%positive) = Some (Some true) ∧
  (enabled <$> h !! 2%positive) = Some (Some true).
Proof. vm_compute. split; reflexivity. Qed.

Lemma applyFilters_keeps_survivors_witness :
  caller_arrays !! 1%positive = Some patients ∧
  length (mandatoryFilters (fst filtered_state)) = 1%nat ∧
  length (enabledOptional (fst filtered_state) (snd filtered_state)) = 1%nat ∧
  ∃ out σ',
    applyFilters (fst filtered_state) (snd filtered_state) 1%positive
      caller_arrays = Some (out, σ') ∧
    σ' !! out = Some [ {| uuid := 4; risk := "high" |} ] ∧
    (∀ r, passes_all (pipeline (fst filtered_state) (snd filtered_state)) r =
            true ↔
          survives (fst filtered_state) (snd filtered_state) r) ∧
    (mandatoryFilters (fst filtered_state) = [] →
     enabledOptional (fst filtered_state) (snd filtered_state) = [] →
     σ' !! out = Some patients) ∧
    (patients = [] → σ' !! out = Some []).
Proof.
  split; [reflexivity|]. split; [reflexivity|]. split; [reflexivity|].
  destruct (applyFilters_keeps_survivors (fst filtered_state)
              (snd filtered_state) 1%positive caller_arrays patients eq_refl)
    as (out & σ' & Hrun & Hout & Hiff & Hnone & Hempty).
  exists out, σ'. split; [exact Hrun|]. split; [exact Hout|].
  split; [exact Hiff|]. split; [exact Hnone|exact Hempty].
Defined.

(** The claim C2 as the specification words it fails for an interval that is
    not given: the default of 10000 ms arms a timer, and after 50000 ms the
    fetch function has been called six times, not once. *)
Lemma absent_interval_arms_default_timer :
  delayInterval sample_props = Undefined ∧
  fetchListActionCreator sample_props = Val 0%nat ∧
  timers fresh_runtime = ∅ ∧
  interval (activated_instance sample_props) = Some 1%positive ∧
  timers (activated_runtime sample_props) =
    {[ 1%positive := {| period := 10000; armed_at := 0 |} ]} ∧
  fetchCalls (activated_runtime sample_props) = 1%nat ∧
  fetchCalls (advance 50000 (activated_runtime sample_props)) = 6%nat ∧
  fetchCalls (advance 50000 (activated_runtime sample_props)) ≠ 1%nat.
Proof. vm_compute. repeat split. discriminate. Qed.

Lemma nonpositive_interval_fetches_once_witness :
  timers fresh_runtime = ∅ ∧
  fetchListActionCreator sample_props_no_refresh = Val 0%nat ∧
  delayInterval sample_props_no_refresh = Val 0 ∧
  fetchCalls (activated_runtime sample_props_no_refresh) = 1%nat ∧
  interval (activated_instance sample_props_no_refresh) = None ∧
  timers (activated_runtime sample_props_no_refresh) = ∅ ∧
  ∀ dt, fetchCalls (advance dt (activated_runtime sample_props_no_refresh)) = 1%nat.
Proof.
  split; [reflexivity|]. split; [reflexivity|]. split; [reflexivity|].
  refine (proj1 (nonpositive_interval_fetches_once
                   sample_props_no_refresh caller_objects fresh_runtime 0%nat
                   _ _ _ _ eq_refl eq_refl
                   (activated_eq sample_props_no_refresh)) _).
  right. exists 0. split; [reflexivity|lia].
Defined.

Lemma filter_order_irrelevant_witness :
  caller_arrays !! 1%positive = Some patients ∧
  Permutation [isHighRisk; hasEvenUuid] [hasEvenUuid; isHighRisk] ∧
  contents (applyFiltersHelper 1%positive [isHighRisk; hasEvenUuid] caller_arrays) =
    contents (applyFiltersHelper 1%positive [hasEvenUuid; isHighRisk] caller_arrays) ∧
  contents (applyFiltersHelper 1%positive [isHighRisk; hasEvenUuid] caller_arrays) =
    Some (fold_filters [isHighRisk; hasEvenUuid] patients) ∧
  contents (applyFiltersHelper 1%positive [isHighRisk; hasEvenUuid] caller_arrays) =
    Some (fold_filters (rev [isHighRisk; hasEvenUuid]) patients).
Proof.
  split; [reflexivity|]. split; [apply perm_swap|].
  apply (filter_order_irrelevant 1%positive caller_arrays patients).
  - reflexivity.
  - apply perm_swap.
Defined.

Lemma unmount_cancels_timer_witness :
  timers fresh_runtime = ∅ ∧
  timers (componentWillUnmount (activated_instance sample_props_refresh)
            (advance_all [2500] (activated_runtime sample_props_refresh))) = ∅ ∧
  (∀ dts',
     fetchCalls (advance_all dts'
        (componentWillUnmount (activated_instance sample_props_refresh)
           (advance_all [2500] (activated_runtime sample_props_refresh)))) =
     fetchCalls (advance_all [2500] (activated_runtime sample_props_refresh))) ∧
  (∀ w0, componentWillUnmount
           (fst (constructor (resolveDefaultProps sample_props_refresh)
                             caller_objects)) w0 = w0) ∧
  (interval (activated_instance sample_props_refresh) = None →
   ∀ w0, componentWillUnmount (activated_instance sample_props_refresh) w0 = w0).
Proof.
  split; [reflexivity|].
  apply (unmount_cancels_timer sample_props_refresh caller_objects fresh_runtime
           _ _ _ _ [2500] eq_refl (activated_eq sample_props_refresh)).
Defined.

Lemma toggle_twice_restores_witness :
  enabled_is_boolean sample_instance sample_objects ∧
  handleFilterToggle "highrisk"
    (fst (handleFilterToggle "highrisk" sample_instance sample_objects))
    (snd (handleFilterToggle "highrisk" sample_instance sample_objects)) =
  (sample_instance, sample_objects).
Proof.
  split; [apply constructor_enabled_is_boolean|].
  apply (toggle_twice_restores "highrisk" sample_instance sample_objects).
  - apply constructor_enabled_is_boolean.
  - now destruct (handleFilterToggle "highrisk" sample_instance sample_objects).
Defined.

Lemma toggle_flips_only_match_witness :
  handleFilterToggle "highrisk" sample_instance sample_objects =
    (sample_instance,
     <[ 1%positive := with_enabled true (init_filter highRisk) ]> sample_objects) ∧
  handleFilterToggle "lowrisk" sample_instance sample_objects =
    (sample_instance, sample_objects).
Proof.
  destruct (toggle_flips_only_match "highrisk" sample_instance sample_objects)
    as [Hflip _].
  destruct (toggle_flips_only_match "lowrisk" sample_instance sample_objects)
    as [_ Hnone].
  split.
  - apply (Hflip 1%positive (init_filter highRisk) false);
      try reflexivity.
    intros v' o' [<-|[<-|[]]] Hne; [congruence|].
    vm_compute. intros [= <-]. discriminate.
  - apply Hnone.
    intros v o [<-|[<-|[]]]; vm_compute; intros [= <-]; discriminate.
Defined.

Lemma constructor_initializes_witness :
  constructor (resolveDefaultProps sample_props) caller_objects =
    (sample_instance, sample_objects) ∧
  length (state_filters sample_instance) = 2%nat ∧
  deref sample_objects (state_filters sample_instance) =
    [ {| label := "High Risk"; filter := filter highRisk;
         enabled := Some false; key := Some "highrisk"%string |};
      {| label := "Even  UUID"; filter := filter evenUuid;
         enabled := Some false; key := Some "evenuuid"%string |} ] ∧
  state_filters (fst (constructor bare_props caller_objects)) = [] ∧
  snd (constructor bare_props caller_objects) = caller_objects.
Proof.
  split; [apply sample_constructed|].
  destruct (constructor_initializes (resolveDefaultProps sample_props)
              caller_objects sample_instance sample_objects sample_constructed)
    as (Hspecs & _ & _).
  destruct (Hspecs [1%positive; 2%positive] eq_refl) as [Hlen Hentries].
  destruct (constructor_initializes bare_props caller_objects
              (fst (constructor bare_props caller_objects))
              (snd (constructor bare_props caller_objects)) eq_refl)
    as (_ & Hnone & _).
  destruct (Hnone eq_refl) as [Hempty Hsame].
  split; [exact Hlen|]. split; [exact Hentries|]. split; assumption.
Defined.

Lemma missing_inputs_are_no_ops_witness :
  fetchListActionCreator bare_props = Undefined ∧
  filters bare_props = Undefined ∧
  optionalFilters bare_props = Undefined ∧
  fst (fst (fst (activated bare_props))) = Normal ∧
  activated_runtime bare_props = fresh_runtime ∧
  interval (activated_instance bare_props) = None ∧
  activated_objects bare_props = caller_objects ∧
  applyFilters (activated_instance bare_props) (activated_objects bare_props)
    1%positive caller_arrays = Some (1%positive, caller_arrays).
Proof.
  destruct (missing_inputs_are_no_ops bare_props caller_objects fresh_runtime
              _ _ _ _ (activated_eq bare_props))
    as (Hfetch & _ & Hopt & Happly).
  destruct (Hfetch eq_refl) as (_ & _ & Hint & Hnormal & Hsame).
  destruct (Hopt eq_refl) as (_ & Hobjs & _).
  split; [reflexivity|]. split; [reflexivity|]. split; [reflexivity|].
  split; [now apply Hnormal|]. split; [now apply Hsame|].
  split; [exact Hint|]. split; [exact Hobjs|].
  apply (Happly eq_refl eq_refl caller_arrays).
Defined.

Lemma applyFilters_preserves_input_witness :
  caller_arrays !! 1%positive = Some patients ∧
  ∃ out σ',
    applyFilters
      (fst (handleFilterToggle "highrisk" sample_instance sample_objects))
      (snd (handleFilterToggle "highrisk" sample_instance sample_objects))
      1%positive caller_arrays = Some (out, σ') ∧
    σ' !! 1%positive = Some patients ∧
    (∀ (a : aref) rs, caller_arrays !! a = Some rs → σ' !! a = Some rs).
Proof.
  split; [reflexivity|].
  apply (applyFilters_preserves_input _ _ 1%positive caller_arrays patients).
  reflexivity.
Defined.

Lemma constructor_mutates_caller_objects_witness :
  optionalFilters (resolveDefaultProps sample_props) =
    Val [1%positive; 2%positive] ∧
  caller_objects !! 1%positive = Some highRisk ∧
  caller_objects !! 2%positive = Some evenUuid ∧
  state_filters sample_instance = [1%positive; 2%positive] ∧
  dom sample_objects = dom caller_objects ∧
  sample_objects !! 1%positive =
    Some {| label := "High Risk"; filter := filter highRisk;
            enabled := Some false; key := Some "highrisk"%string |} ∧
  sample_objects !! 2%positive =
    Some {| label := "Even  UUID"; filter := filter evenUuid;
            enabled := Some false; key := Some "evenuuid"%string |} ∧
  (∀ v, ¬ In v [1%positive; 2%positive] →
     sample_objects !! v = caller_objects !! v).
Proof.
  destruct (constructor_mutates_caller_objects
              (resolveDefaultProps sample_props) caller_objects
              [1%positive; 2%positive] sample_instance sample_objects
              eq_refl sample_constructed)
    as (Hrefs & Hdom & Hin & Hout).
  split; [reflexivity|]. split; [reflexivity|]. split; [reflexivity|].
  split; [exact Hrefs|]. split; [exact Hdom|].
  split; [|split; [|exact Hout]].
  - apply (Hin 1%positive highRisk); [now left | reflexivity].
  - apply (Hin 2%positive evenUuid); [right; now left | reflexivity].
Defined.

(** ** More about keys *)

Lemma toLowerCase_unit_idempotent (c : ascii) :
  toLowerCase_unit (toLowerCase_unit c) = toLowerCase_unit c.
Proof. destruct c as [[] [] [] [] [] [] [] []]; reflexivity. Qed.

Lemma is_whitespace_toLowerCase_unit (c : ascii) :
  is_whitespace (toLowerCase_unit c) = is_whitespace c.
Proof. destruct c as [[] [] [] [] [] [] [] []]; reflexivity. Qed.

Lemma toLowerCase_idempotent (s : string) :
  toLowerCase (toLowerCase s) = toLowerCase s.
Proof.
  induction s as [|c s IH]; [reflexivity|]. cbn.
  now rewrite toLowerCase_unit_idempotent, IH.
Qed.

Lemma replace_whitespace_idempotent (s : string) :
  replace_whitespace (replace_whitespace s) = replace_whitespace s.
Proof.
  induction s as [|c s IH]; [reflexivity|]. cbn.
  destruct (is_whitespace c) eqn:Hc; [exact IH|].
  cbn. now rewrite Hc, IH.
Qed.

(** Lower-casing and removing whitespace can be done in either order. *)
Lemma toLowerCase_replace_whitespace (s : string) :
  toLowerCase (replace_whitespace s) = replace_whitespace (toLowerCase s).
Proof.
  induction s as [|c s IH]; [reflexivity|]. cbn.
  rewrite is_whitespace_toLowerCase_unit.
  destruct (is_whitespace c); cbn; now rewrite IH.
Qed.

Lemma toLowerCase_app (s1 s2 : string) :
  toLowerCase (s1 ++ s2) = (toLowerCase s1 ++ toLowerCase s2)%string.
Proof. induction s1 as [|c s1 IH]; [reflexivity|]. simpl. now rewrite IH. Qed.

Lemma replace_whitespace_app (s1 s2 : string) :
  replace_whitespace (s1 ++ s2) =
  (replace_whitespace s1 ++ replace_whitespace s2)%string.
Proof.
  induction s1 as [|c s1 IH]; [reflexivity|]. simpl.
  destruct (is_whitespace c); simpl; now rewrite IH.
Qed.

Lemma replace_whitespace_length (s : string) :
  (String.length (replace_whitespace s) ≤ String.length s)%nat.
Proof.
  induction s as [|c s IH]; [reflexivity|]. cbn.
  destruct (is_whitespace c); cbn; lia.
Qed.

Lemma toLowerCase_length (s : string) :
  String.length (toLowerCase s) = String.length s.
Proof. induction s as [|c s IH]; [reflexivity|]. cbn. now rewrite IH. Qed.

(** X1: for labels of code units below 256, a key is a fixed point of the
    normalization, and labels that differ only in letter case or in
    whitespace get the same key; the key of a concatenation is the
    concatenation of the keys. *)
Theorem normalize_canonical (s t : string) :
  normalize (normalize s) = normalize s ∧
  normalize (toLowerCase s) = normalize s ∧
  normalize (replace_whitespace s) = normalize s ∧
  normalize (s ++ t) = (normalize s ++ normalize t)%string.
Proof.
  unfold normalize. repeat split.
  - now rewrite toLowerCase_replace_whitespace, toLowerCase_idempotent,
      replace_whitespace_idempotent.
  - now rewrite toLowerCase_idempotent.
  - now rewrite toLowerCase_replace_whitespace, replace_whitespace_idempotent.
  - now rewrite toLowerCase_app, replace_whitespace_app.
Qed.

(** X2: for labels of code units below 256, a key holds no whitespace and
    no capital letter, and is never longer than its label. *)
Theorem key_has_no_whitespace_or_capitals (s : string) :
  Forall (λ c, is_whitespace c = false ∧ is_lower_unit c = true)
         (list_ascii_of_string (normalize s)) ∧
  (String.length (normalize s) ≤ String.length s)%nat.
Proof.
  split.
  - induction s as [|c s IH]; [constructor|].
    rewrite normalize_unfold.
    destruct (is_whitespace (toLowerCase_unit c)) eqn:Hc; [exact IH|].
    cbn [list_ascii_of_string]. constructor; [|exact IH].
    split; [exact Hc|]. unfold is_lower_unit.
    rewrite toLowerCase_unit_idempotent. apply Ascii.eqb_refl.
  - unfold normalize.
    etransitivity; [apply replace_whitespace_length|].
    now rewrite toLowerCase_length.
Qed.

Section ToggleSequences.

Context {Row : Type}.
Implicit Types (h : gmap loc (OptionalFilter Row)) (c : Instance Row).
Implicit Types (o : OptionalFilter Row).

Lemma toggle_filter_comm k1 k2 o :
  toggle_filter k1 (toggle_filter k2 o) = toggle_filter k2 (toggle_filter k1 o).
Proof.
  destruct o as [l f e ky]. unfold toggle_filter, key_matches. cbn.
  destruct ky as [k|]; [|reflexivity].
  destruct (String.eqb k k1) eqn:H1, (String.eqb k k2) eqn:H2;
    cbn; rewrite ?H1, ?H2; reflexivity.
Qed.

Lemma iter_commute (f g : OptionalFilter Row → OptionalFilter Row) n m o :
  (∀ x, f (g x) = g (f x)) →
  Nat.iter n f (Nat.iter m g o) = Nat.iter m g (Nat.iter n f o).
Proof.
  intros Hfg. induction n as [|n IH]; [reflexivity|].
  rewrite !Nat.iter_succ, IH. clear IH.
  generalize (Nat.iter n f o). intros x.
  induction m as [|m IH]; [reflexivity|].
  now rewrite !Nat.iter_succ, <- IH, Hfg.
Qed.

(** X3: toggles commute: two checkbox changes give the same filter state in
    either order. *)
Theorem toggles_commute k1 k2 c h :
  handleFilterToggle k2 (fst (handleFilterToggle k1 c h))
                        (snd (handleFilterToggle k1 c h)) =
  handleFilterToggle k1 (fst (handleFilterToggle k2 c h))
                        (snd (handleFilterToggle k2 c h)).
Proof.
  rewrite !handleFilterToggle_eq. cbn [fst snd]. f_equal.
  apply map_eq. intros v. rewrite !map_in_place_lookup.
  destruct (h !! v) as [o|]; [|reflexivity].
  cbn [fmap option_fmap option_map]. f_equal.
  apply iter_commute, toggle_filter_comm.
Qed.

Lemma toggle_filter_with_enabled k o b :
  enabled o = Some b → ∃ b', toggle_filter k o = with_enabled b' o.
Proof.
  intros Hb. unfold toggle_filter.
  destruct (key_matches o k).
  - now exists (negb (truthy (enabled o))).
  - exists b. destruct o as [l f e ky]. cbn in Hb. now subst e.
Qed.

Lemma iter_toggle_with_enabled k n o b :
  enabled o = Some b →
  ∃ b', Nat.iter n (toggle_filter k) o = with_enabled b' o.
Proof.
  intros Hb. induction n as [|n [b1 IH]].
  - exists b. destruct o as [l f e ky]. cbn in Hb. now subst e.
  - rewrite Nat.iter_succ, IH.
    destruct (toggle_filter_with_enabled k (with_enabled b1 o) b1 eq_refl)
      as [b2 ->].
    now exists b2.
Qed.

Lemma toggles_snoc ks k c h :
  toggles (ks ++ [k]) c h =
  handleFilterToggle k (fst (toggles ks c h)) (snd (toggles ks c h)).
Proof. unfold toggles. now rewrite foldl_app. Qed.

(** Toggles never change the instance. *)
Lemma toggles_instance ks c h : fst (toggles ks c h) = c.
Proof.
  induction ks as [|k ks IH] using rev_ind; [reflexivity|].
  now rewrite toggles_snoc, handleFilterToggle_eq, IH.
Qed.

(** Whatever the toggles, an object with a boolean flag keeps its label,
    filter and key; objects outside the filter state are not touched. *)
Lemma toggles_lookup ks c h (v : loc) :
  (∀ o b, h !! v = Some o → enabled o = Some b →
          ∃ b', snd (toggles ks c h) !! v = Some (with_enabled b' o)) ∧
  (¬ In v (state_filters c) → snd (toggles ks c h) !! v = h !! v) ∧
  (h !! v = None → snd (toggles ks c h) !! v = None).
Proof.
  induction ks as [|k ks (IHin & IHout & IHnone)] using rev_ind.
  - cbn. repeat split; [|done..]. intros o b Ho Hb. exists b. rewrite Ho.
    destruct o as [l f e ky]. cbn in Hb. now subst e.
  - rewrite toggles_snoc, handleFilterToggle_eq, toggles_instance.
    cbn [snd]. rewrite map_in_place_lookup. repeat split.
    + intros o b Ho Hb. destruct (IHin o b Ho Hb) as [b1 ->].
      cbn [fmap option_fmap option_map].
      destruct (iter_toggle_with_enabled k
                  (count_occ Pos.eq_dec (state_filters c) v)
                  (with_enabled b1 o) b1 eq_refl) as [b2 ->].
      now exists b2.
    + intros Hout. rewrite (IHout Hout).
      apply (count_occ_not_In Pos.eq_dec) in Hout. rewrite Hout.
      now destruct (h !! v).
    + intros Hnone. now rewrite (IHnone Hnone).
Qed.

(** The filter state after the constructor and any toggles, object by
    object. *)
Lemma constructed_toggled_lookup (p : Props Row) h specs ks (v : loc) :
  optionalFilters p = Val specs →
  (∀ o, In v specs → h !! v = Some o →
        ∃ b, snd (toggles ks (fst (constructor p h)) (snd (constructor p h)))
               !! v =
             Some {| label := label o; filter := filter o;
                     enabled := Some b;
                     key := Some (normalize (label o)) |}) ∧
  (¬ In v specs →
   snd (toggles ks (fst (constructor p h)) (snd (constructor p h))) !! v =
   h !! v) ∧
  (h !! v = None →
   snd (toggles ks (fst (constructor p h)) (snd (constructor p h))) !! v =
   None).
Proof.
  intros Hp.
  destruct (toggles_lookup ks (fst (constructor p h)) (snd (constructor p h)) v)
    as (Hin & Hout & Hnone).
  rewrite (constructor_refs p h specs Hp) in Hout.
  repeat split.
  - intros o Hv Ho.
    destruct (Hin (init_filter o) false) as [b ->]; [|reflexivity|now exists b].
    now rewrite (constructor_lookup_in p h specs v Hp Hv), Ho.
  - intros Hv. rewrite (Hout Hv).
    now apply (constructor_lookup_out p h specs).
  - intros Hv. apply Hnone.
    destruct (in_dec Pos.eq_dec v specs) as [Hi|Ho].
    + now rewrite (constructor_lookup_in p h specs v Hp Hi), Hv.
    + now rewrite (constructor_lookup_out p h specs v Hp Ho).
Qed.

(** X4: from the constructor on, whatever is toggled, the filter state keeps
    its entries: the same references in the same order, every object with
    the caller's label and filter, the key of its label and a boolean
    [enabled]; no object is added or removed and no other object is
    written. *)
Theorem filter_state_invariant (p : Props Row) h specs ks c0 h0 c1 h1 :
  optionalFilters p = Val specs →
  constructor p h = (c0, h0) →
  toggles ks c0 h0 = (c1, h1) →
  c1 = c0 ∧
  state_filters c1 = specs ∧
  dom h1 = dom h ∧
  (∀ v o, In v specs → h !! v = Some o →
     ∃ b, h1 !! v = Some {| label := label o; filter := filter o;
                            enabled := Some b;
                            key := Some (normalize (label o)) |}) ∧
  (∀ v, ¬ In v specs → h1 !! v = h !! v).
Proof.
  intros Hp Hc Ht.
  pose proof (toggles_instance ks c0 h0) as Hinst.
  pose proof (constructor_refs p h specs Hp) as Hrefs.
  pose proof (λ v, constructed_toggled_lookup p h specs ks v Hp) as Hlook.
  rewrite Hc in Hrefs, Hlook. cbn [fst snd] in Hrefs, Hlook.
  rewrite Ht in Hinst, Hlook. cbn [fst snd] in Hinst, Hlook. subst c1.
  split; [reflexivity|]. split; [exact Hrefs|]. split; [|split].
  - apply set_eq. intros v. rewrite !elem_of_dom.
    destruct (Hlook v) as (Hin & Hout & Hnone).
    destruct (h !! v) as [o|] eqn:Ho.
    + destruct (in_dec Pos.eq_dec v specs) as [Hi|Hn].
      * destruct (Hin o Hi eq_refl) as [b ->]. split; eauto.
      * rewrite (Hout Hn). split; eauto.
    + rewrite (Hnone eq_refl). reflexivity.
  - intros v o Hv Ho. now apply (Hlook v).
  - intros v Hv. now apply (Hlook v).
Qed.

(** X5: the constructor run again on the same props, as for a second list
    built from the same filter specs, undoes every toggle: the objects are
    the shared ones, and they are back to what the first constructor left. *)
Theorem reconstruction_resets_toggles (p : Props Row) h specs ks c0 h0 c1 h1 :
  optionalFilters p = Val specs →
  constructor p h = (c0, h0) →
  toggles ks c0 h0 = (c1, h1) →
  constructor p h1 = (c0, h0).
Proof.
  intros Hp Hc Ht.
  pose proof (λ v, constructed_toggled_lookup p h specs ks v Hp) as Hlook.
  rewrite Hc in Hlook. cbn [fst snd] in Hlook.
  rewrite Ht in Hlook. cbn [snd] in Hlook.
  rewrite (surjective_pairing (constructor p h1)). f_equal.
  - pose proof (constructor_refs p h specs Hp) as R0.
    pose proof (constructor_props p h) as P0.
    pose proof (constructor_interval p h) as I0.
    pose proof (constructor_refs p h1 specs Hp) as R1.
    pose proof (constructor_props p h1) as P1.
    pose proof (constructor_interval p h1) as I1.
    rewrite Hc in R0, P0, I0. cbn [fst] in R0, P0, I0.
    destruct (fst (constructor p h1)) as [p1 f1 i1], c0 as [p0 f0 i0].
    cbn in *. congruence.
  - apply map_eq. intros v.
    pose proof (constructor_lookup_in p h specs v Hp) as In0.
    pose proof (constructor_lookup_out p h specs v Hp) as Out0.
    rewrite Hc in In0, Out0. cbn [snd] in In0, Out0.
    destruct (Hlook v) as (Hin & Hout & Hnone).
    destruct (in_dec Pos.eq_dec v specs) as [Hi|Hn].
    + rewrite (constructor_lookup_in p h1 specs v Hp Hi), (In0 Hi).
      destruct (h !! v) as [o|] eqn:Ho.
      * destruct (Hin o Hi eq_refl) as [b ->]. reflexivity.
      * now rewrite (Hnone eq_refl).
    + now rewrite (constructor_lookup_out p h1 specs v Hp Hn), (Out0 Hn), (Hout Hn).
Qed.

End ToggleSequences.

Section FilteredRows.

Context {Row : Type}.
Implicit Types (h : gmap loc (OptionalFilter Row)) (c : Instance Row).
Implicit Types (fs : list (Filter Row)) (σ : gmap aref (list Row)).
Implicit Types (rows : list Row) (o : OptionalFilter Row).

(** ** The array the helper returns *)

Lemma applyFiltersHelper_allocates fs : ∀ (lst : aref) σ rows out σ',
  σ !! lst = Some rows →
  applyFiltersHelper lst fs σ = Some (out, σ') →
  size σ' = (size σ + length fs)%nat ∧
  (fs = [] → out = lst ∧ σ' = σ) ∧
  (fs ≠ [] → σ !! out = None).
Proof.
  induction fs as [|f fs IH] using rev_ind; intros lst σ rows out σ' Hlst Hrun.
  - rewrite applyFiltersHelper_nil in Hrun. injection Hrun as <- <-.
    split; [cbn; lia|]. split; [done|]. intros Hne. now destruct Hne.
  - destruct (array_filter_alloc f lst σ rows Hlst) as (a & Hfresh & Ha).
    rewrite applyFiltersHelper_snoc, Ha in Hrun.
    destruct (IH a (<[a := List.filter f rows]> σ) (List.filter f rows) out σ')
      as (Hsize & Hnil & Hcons); [apply lookup_insert_eq|exact Hrun|].
    split; [|split].
    + rewrite Hsize, map_size_insert_None, length_app by exact Hfresh.
      cbn. lia.
    + intros Heq. now destruct fs.
    + intros _. destruct fs as [|g fs'] eqn:Hfs.
      * destruct (Hnil eq_refl) as [-> _]. exact Hfresh.
      * eapply lookup_weaken_None; [apply Hcons; discriminate|].
        now apply insert_subseteq.
Qed.

(** X6: which array [applyFilters] returns.  With no filter in force it is
    the very array it was given; with at least one it is an array that did
    not exist before the call, so never the input array itself. *)
Theorem applyFilters_result_identity c h (lst : aref) σ rows out σ' :
  σ !! lst = Some rows →
  applyFilters c h lst σ = Some (out, σ') →
  (pipeline c h = [] → out = lst) ∧
  (pipeline c h ≠ [] → σ !! out = None ∧ out ≠ lst).
Proof.
  intros Hlst Hrun.
  destruct (applyFiltersHelper_allocates (pipeline c h) lst σ rows out σ'
              Hlst Hrun) as (_ & Hnil & Hcons).
  split; [intros Hp; now apply Hnil|].
  intros Hne. split; [now apply Hcons|].
  intros ->. rewrite (Hcons Hne) in Hlst. discriminate.
Qed.

Lemma filter_sublist (p : Row → bool) rows : List.filter p rows `sublist_of` rows.
Proof.
  induction rows as [|r rows IH]; [constructor|]. cbn.
  destruct (p r); now constructor.
Qed.

(** X7: the rows handed on are a subsequence of the rows given: none is
    added, repeated or moved, each one passes every filter in force, and
    there are never more of them than were given. *)
Theorem applyFilters_subsequence c h (lst : aref) σ rows out σ' res :
  σ !! lst = Some rows →
  applyFilters c h lst σ = Some (out, σ') →
  σ' !! out = Some res →
  res `sublist_of` rows ∧
  (length res ≤ length rows)%nat ∧
  (∀ r, In r res ↔ In r rows ∧ survives c h r) ∧
  (NoDup rows → NoDup res).
Proof.
  intros Hlst Hrun Hres.
  destruct (applyFiltersHelper_result (pipeline c h) lst σ rows Hlst)
    as (out0 & σ0 & Hrun0 & _ & Hout0).
  unfold applyFilters in Hrun. rewrite Hrun in Hrun0.
  injection Hrun0 as <- <-. rewrite Hres in Hout0. injection Hout0 as ->.
  pose proof (filter_sublist (passes_all (pipeline c h)) rows) as Hsub.
  split; [exact Hsub|]. split; [now apply sublist_length|]. split.
  - intros r. rewrite filter_In, passes_all_survives. reflexivity.
  - intros Hnd. eapply sublist_NoDup; eauto.
Qed.

(** ** Rows before the first toggle *)

Lemma filter_enabled_init (l : list (OptionalFilter Row)) :
  List.filter (λ v, truthy (enabled v)) (List.map init_filter l) = [].
Proof. induction l as [|o l IH]; [reflexivity|]. cbn. exact IH. Qed.

Lemma constructor_enabledOptional (p : Props Row) h :
  enabledOptional (fst (constructor p h)) (snd (constructor p h)) = [].
Proof.
  unfold enabledOptional.
  destruct (optionalFilters p) as [| |specs] eqn:Hp.
  - now rewrite constructor_no_specs by now left.
  - now rewrite constructor_no_specs by now right.
  - rewrite (constructor_refs p h specs Hp), (deref_constructor p h specs Hp).
    now rewrite filter_enabled_init.
Qed.

(** X8: straight after the constructor no optional filter is in force: the
    first rendering shows the rows that pass the mandatory filters, and all
    rows when there are none. *)
Theorem first_render_applies_mandatory_only (p : Props Row) h c h'
    (lst : aref) σ rows :
  constructor p h = (c, h') →
  σ !! lst = Some rows →
  enabledOptional c h' = [] ∧
  contents (applyFilters c h' lst σ) =
    Some (List.filter (passes_all (mandatoryFilters c)) rows) ∧
  (mandatoryFilters c = [] → applyFilters c h' lst σ = Some (lst, σ)).
Proof.
  intros Hc Hlst.
  pose proof (constructor_enabledOptional p h) as Hnone.
  rewrite Hc in Hnone. cbn [fst snd] in Hnone.
  assert (Hpipe : pipeline c h' = mandatoryFilters c)
    by now rewrite pipeline_eq, Hnone, app_nil_r.
  split; [exact Hnone|]. unfold applyFilters. rewrite Hpipe. split.
  - destruct (applyFiltersHelper_result (mandatoryFilters c) lst σ rows Hlst)
      as (out & σ' & -> & _ & Hout). exact Hout.
  - intros ->. apply applyFiltersHelper_nil.
Qed.

(** ** Rows before and after a toggle *)

(** The store after a toggle of a key that exactly one entry has. *)
Lemma handleFilterToggle_unique k c h (v : loc) o b :
  h !! v = Some o → key o = Some k → enabled o = Some b →
  count_occ Pos.eq_dec (state_filters c) v = 1%nat →
  (∀ v' o', In v' (state_filters c) → v' ≠ v →
            h !! v' = Some o' → key o' ≠ Some k) →
  snd (handleFilterToggle k c h) = <[v := with_enabled (negb b) o]> h.
Proof.
  intros Ho Hk Hb Hone Huniq.
  rewrite handleFilterToggle_eq. cbn [snd]. apply map_eq. intros v'.
  rewrite map_in_place_lookup.
  destruct (decide (v = v')) as [<-|Hne].
  - rewrite lookup_insert_eq, Hone, Ho. cbn. f_equal.
    now apply toggle_filter_match.
  - rewrite lookup_insert_ne by exact Hne.
    destruct (h !! v') as [o'|] eqn:Ho'; [|reflexivity].
    cbn [fmap option_fmap option_map]. f_equal.
    destruct (in_dec Pos.eq_dec v' (state_filters c)) as [Hin|Hout].
    + apply iter_fixed, toggle_filter_other.
      apply (Huniq v' o' Hin); [congruence | exact Ho'].
    + apply (count_occ_not_In Pos.eq_dec) in Hout. now rewrite Hout.
Qed.

(** Two stores that differ in the flag of one object only: with the flag
    set, a row survives when it survives with the flag unset and passes the
    object's filter. *)
Lemma survives_enabled c h_on h_off (v : loc) o (r : Row) :
  In v (state_filters c) →
  h_on !! v = Some (with_enabled true o) →
  h_off !! v = Some (with_enabled false o) →
  (∀ v', v' ≠ v → h_on !! v' = h_off !! v') →
  survives c h_on r ↔ survives c h_off r ∧ filter o r = true.
Proof.
  intros Hv Hon Hoff Hsame. unfold survives. split.
  - intros [Hm Hopt]. split; [split; [exact Hm|]|].
    + intros v' o' Hv' Ho' He.
      destruct (decide (v' = v)) as [->|Hne].
      * rewrite Hoff in Ho'. injection Ho' as <-. discriminate.
      * apply (Hopt v' o' Hv'); [|exact He]. now rewrite Hsame.
    + now apply (Hopt v (with_enabled true o) Hv Hon).
  - intros [[Hm Hopt] Hf]. split; [exact Hm|].
    intros v' o' Hv' Ho' He.
    destruct (decide (v' = v)) as [->|Hne].
    + rewrite Hon in Ho'. injection Ho' as <-. exact Hf.
    + apply (Hopt v' o' Hv'); [|exact He]. now rewrite <- Hsame.
Qed.

Lemma passes_all_enabled c h_on h_off (v : loc) o (r : Row) :
  In v (state_filters c) →
  h_on !! v = Some (with_enabled true o) →
  h_off !! v = Some (with_enabled false o) →
  (∀ v', v' ≠ v → h_on !! v' = h_off !! v') →
  passes_all (pipeline c h_on) r =
  passes_all (pipeline c h_off) r && filter o r.
Proof.
  intros Hv Hon Hoff Hsame.
  apply Bool.eq_iff_eq_true.
  rewrite andb_true_iff, !passes_all_survives.
  now apply (survives_enabled c h_on h_off v o r).
Qed.

Lemma with_enabled_id o b : enabled o = Some b → with_enabled b o = o.
Proof. destruct o as [l f e ky]. cbn. now intros ->. Qed.

(** X9: a toggle of a key that exactly one entry has changes the rows shown
    by that entry's filter and nothing else: switching it on keeps, of the
    rows shown before, those that pass the filter; switching it off shows
    rows of which the ones shown before were those that pass it. *)
Theorem toggle_narrows_by_its_filter k c h (v : loc) o b (lst : aref) σ rows :
  h !! v = Some o → key o = Some k → enabled o = Some b →
  count_occ Pos.eq_dec (state_filters c) v = 1%nat →
  (∀ v' o', In v' (state_filters c) → v' ≠ v →
            h !! v' = Some o' → key o' ≠ Some k) →
  σ !! lst = Some rows →
  ∃ before after,
    contents (applyFilters c h lst σ) = Some before ∧
    contents (applyFilters c (snd (handleFilterToggle k c h)) lst σ) =
      Some after ∧
    if b then before = List.filter (filter o) after
    else after = List.filter (filter o) before.
Proof.
  intros Ho Hk Hb Hone Huniq Hlst.
  rewrite (handleFilterToggle_unique k c h v o b Ho Hk Hb Hone Huniq).
  set (h' := <[v := with_enabled (negb b) o]> h).
  assert (Hv : In v (state_filters c)).
  { apply (count_occ_In Pos.eq_dec). rewrite Hone. lia. }
  assert (Hh : h !! v = Some (with_enabled b o))
    by now rewrite (with_enabled_id o b Hb).
  assert (Hh' : h' !! v = Some (with_enabled (negb b) o))
    by apply lookup_insert_eq.
  assert (Hsame : ∀ v', v' ≠ v → h' !! v' = h !! v').
  { intros v' Hne. unfold h'. now rewrite lookup_insert_ne. }
  destruct (applyFiltersHelper_result (pipeline c h) lst σ rows Hlst)
    as (o1 & σ1 & Hrun1 & _ & Hout1).
  destruct (applyFiltersHelper_result (pipeline c h') lst σ rows Hlst)
    as (o2 & σ2 & Hrun2 & _ & Hout2).
  unfold applyFilters. rewrite Hrun1, Hrun2. cbn [contents].
  eexists _, _. split; [exact Hout1|]. split; [exact Hout2|].
  destruct b; cbn [negb] in *; rewrite filter_twice; apply filter_ext; intros r.
  - apply (passes_all_enabled c h h' v o r Hv Hh Hh').
    intros v' Hne. symmetry. now apply Hsame.
  - now apply (passes_all_enabled c h' h v o r Hv Hh' Hh).
Qed.

(** ** What is rendered *)

Lemma render_checkboxes_ext c h1 h2 :
  (∀ v, In v (state_filters c) → label <$> h1 !! v = label <$> h2 !! v) →
  render_checkboxes c h1 = render_checkboxes c h2.
Proof.
  unfold render_checkboxes. generalize (state_filters c). intros vs Hl.
  induction vs as [|v vs IH]; [reflexivity|]. cbn [omap list_omap].
  rewrite IH by (intros v' Hv'; apply Hl; now right).
  specialize (Hl v (or_introl eq_refl)).
  destruct (h1 !! v) as [o1|], (h2 !! v) as [o2|]; cbn in Hl; try discriminate;
    [|reflexivity].
  injection Hl as ->. reflexivity.
Qed.

(** X10: whatever has been toggled since the constructor, [render] shows
    the checkboxes the caller's specs give: one per spec, in the caller's
    order, labelled with the caller's label and bound to the caller's object;
    it hands the grid the surviving rows together with the column
    descriptors and handlers it was given, and leaves the caller's row array
    as it was. *)
Theorem render_after_toggles (p : Props Row) (d : DisplayProps) h specs ks
    c0 h0 c1 h1 σ rows :
  optionalFilters p = Val specs →
  constructor p h = (c0, h0) →
  toggles ks c0 h0 = (c1, h1) →
  σ !! rowData p = Some rows →
  ∃ view σ',
    render c1 d h1 σ = Some (view, σ') ∧
    heading view = title d ∧
    filterCheckboxes view =
      omap (λ v, match h !! v with
                 | Some o => Some {| onChange_filter := v; children := label o |}
                 | None => None
                 end) specs ∧
    grid_columnDefs (dataGrid view) = columnDefs d ∧
    grid_onRowCount (dataGrid view) = onRowCount d ∧
    grid_rowSelectedActionCreators (dataGrid view) =
      rowSelectedActionCreators d ∧
    σ' !! grid_rowData (dataGrid view) =
      Some (List.filter (passes_all (pipeline c1 h1)) rows) ∧
    σ' !! rowData p = Some rows.
Proof.
  intros Hp Hc Ht Hrows.
  pose proof (toggles_instance ks c0 h0) as Hinst.
  pose proof (constructor_refs p h specs Hp) as Hrefs.
  pose proof (constructor_props p h) as Hprops.
  pose proof (λ v, constructed_toggled_lookup p h specs ks v Hp) as Hlook.
  rewrite Hc in Hrefs, Hprops, Hlook. cbn [fst snd] in Hrefs, Hprops, Hlook.
  rewrite Ht in Hinst, Hlook. cbn [fst snd] in Hinst, Hlook. subst c1.
  unfold render. rewrite Hprops. unfold applyFilters.
  destruct (applyFiltersHelper_result (pipeline c0 h1) (rowData p) σ rows Hrows)
    as (out & σ' & -> & Hsub & Hout).
  eexists _, σ'. split; [reflexivity|]. cbn.
  split; [reflexivity|]. split; [|repeat split; try exact Hout].
  - set (c_specs := {| props := p; state_filters := specs; interval := None |}).
    change (omap _ specs) with (render_checkboxes c_specs h).
    transitivity (render_checkboxes c_specs h1).
    { unfold render_checkboxes. now rewrite Hrefs. }
    apply render_checkboxes_ext. intros v Hv. cbn in Hv.
    destruct (Hlook v) as (Hin & _ & Hnone).
    destruct (h !! v) as [o|] eqn:Ho.
    + destruct (Hin o Hv eq_refl) as [b ->]. reflexivity.
    + now rewrite (Hnone eq_refl).
  - eapply lookup_weaken; eauto.
Qed.

End FilteredRows.

(** ** A single timer over time *)

Lemma elapsed_cons dt dts : elapsed (dt :: dts) = dt + elapsed dts.
Proof. reflexivity. Qed.

Lemma elapsed_nonneg dts : Forall (λ dt, 0 ≤ dt) dts → 0 ≤ elapsed dts.
Proof.
  induction 1 as [|dt dts Hdt _ IH]; [reflexivity|].
  rewrite elapsed_cons. lia.
Qed.

Lemma advance_all_cons dt dts w :
  advance_all (dt :: dts) w = advance_all dts (advance dt w).
Proof. reflexivity. Qed.

(** With one timer of period [d] armed, [e] ms ago, the calls add up to what
    the total time gives, however the time is cut into steps. *)
Lemma advance_all_single_timer dts : ∀ w id d t0 e n,
  timers w = {[ id := {| period := d; armed_at := t0 |} ]} →
  0 < d → 0 ≤ e → now w = t0 + e →
  fetchCalls w = (n + Z.to_nat (e / d))%nat →
  Forall (λ dt, 0 ≤ dt) dts →
  fetchCalls (advance_all dts w) = (n + Z.to_nat ((e + elapsed dts) / d))%nat.
Proof.
  induction dts as [|dt dts IH]; intros w id d t0 e n Ht Hd He Hnow Hn Hdts.
  - cbn. now rewrite Z.add_0_r.
  - apply Forall_cons in Hdts as [Hdt Hdts].
    rewrite advance_all_cons, elapsed_cons, Z.add_assoc.
    apply (IH (advance dt w) id d t0 (e + dt) n); try assumption; try lia.
    + now rewrite advance_timers.
    + unfold advance. destruct (dt <=? 0) eqn:Hz; cbn; lia.
    + unfold advance. destruct (dt <=? 0) eqn:Hz.
      * apply Z.leb_le in Hz. replace dt with 0 by lia.
        now rewrite Z.add_0_r.
      * cbn [fetchCalls]. rewrite Ht, map_fold_singleton, Hn.
        unfold firings. cbn [period armed_at]. rewrite Hnow.
        replace (t0 + e + dt - t0) with (e + dt) by lia.
        replace (t0 + e - t0) with e by lia.
        assert (0 ≤ e / d) by now apply Z.div_pos.
        assert (e / d ≤ (e + dt) / d) by (apply Z.div_le_mono; lia).
        lia.
Qed.

Section SchedulerMore.

Context {Row : Type}.
Implicit Types (h : gmap loc (OptionalFilter Row)) (c : Instance Row).
Implicit Types (p : Props Row).

Lemma mountOtherActions_val c w actions :
  onMountOtherActionCreators (props c) = Val actions →
  mountOtherActions c w = (Normal, c, foldl call_action w actions).
Proof. unfold mountOtherActions. now intros ->. Qed.


(** The instance activation starts from. *)
Lemma activate_start p h w r c h' w' :
  activate p h w = (r, c, h', w') →
  ∃ c0, props c0 = resolveDefaultProps p ∧ interval c0 = None ∧
        componentDidMount c0 w = (r, c, w') ∧
        h' = snd (constructor (resolveDefaultProps p) h) ∧
        state_filters c0 = state_filters (fst (constructor (resolveDefaultProps p) h)).
Proof.
  intros (Hh & Hm)%activate_eq.
  exists (fst (constructor (resolveDefaultProps p) h)).
  split; [apply constructor_props|]. split; [apply constructor_interval|].
  now repeat split.
Qed.

(** With a fetch function, what [componentDidMount] has done when it
    comes to the other action creators. *)
Lemma componentDidMount_before_actions c w f :
  fetchListActionCreator (props c) = Val f →
  ∃ c1 w1,
    componentDidMount c w = mountOtherActions c1 w1 ∧
    props c1 = props c ∧
    fetchCalls w1 = S (fetchCalls w) ∧
    actionCalls w1 = actionCalls w ∧
    (∀ d, delayInterval (props c) = Val d → 0 < d →
          interval c1 = Some (next_timer w) ∧
          timers w1 =
            <[ next_timer w := {| period := d; armed_at := now w |} ]>
              (timers w)).
Proof.
  intros Hf. unfold componentDidMount. rewrite Hf.
  destruct (delayInterval (props c)) as [| |d0];
    [| |destruct (0 <? d0) eqn:Hpos0];
    eexists _, _; (split; [reflexivity|]); cbn;
    (split; [reflexivity|]); (split; [reflexivity|]);
    (split; [reflexivity|]); intros d Hd Hd'; try discriminate;
    injection Hd as ->.
  - now split.
  - apply Z.ltb_ge in Hpos0. lia.
Qed.

(** X11: with a fetch function and a positive interval below 2^31 ms
    (given, or the default), activation arms one timer of that period, and
    the fetch function has been called once plus once for every full period
    of the time passed since, however the time passes.  (From 2^31 ms on
    [setInterval] does not take the delay as it is.) *)
Theorem positive_interval_refreshes p h w f d r c h' w' dts :
  timers w = ∅ →
  fetchListActionCreator p = Val f →
  delayInterval (resolveDefaultProps p) = Val d →
  0 < d →
  d < 2 ^ 31 →
  Forall (λ dt, 0 ≤ dt) dts →
  activate p h w = (r, c, h', w') →
  interval c = Some (next_timer w) ∧
  timers w' = {[ next_timer w := {| period := d; armed_at := now w |} ]} ∧
  fetchCalls (advance_all dts w') =
    (S (fetchCalls w) + Z.to_nat (elapsed dts / d))%nat.
Proof.
  intros Hw Hf Hd Hpos _ Hdts (c0 & Hp0 & _ & Hm & _)%activate_start.
  rewrite (componentDidMount_interval c0 w f d) in Hm;
    [|now rewrite Hp0|now rewrite Hp0|exact Hpos].
  apply mountOtherActions_frame in Hm as (-> & Ht & Hn & Hnow & _).
  cbn in Ht, Hn, Hnow. rewrite Hw in Ht.
  split; [reflexivity|]. split; [exact Ht|].
  rewrite (advance_all_single_timer dts w' (next_timer w) d (now w) 0
             (S (fetchCalls w)) Ht Hpos); [now rewrite Z.add_0_l|lia|lia| |exact Hdts].
  rewrite Hn, Z.div_0_l by lia. cbn. lia.
Qed.

(** X12: the other action creators are each called once, in the order
    given and after the fetch function, whether or not there is a fetch
    function or an interval. *)
Theorem other_action_creators_in_order p h w actions r c h' w' :
  onMountOtherActionCreators p = Val actions →
  fetchListActionCreator p ≠ Null →
  activate p h w = (r, c, h', w') →
  r = Normal ∧ actionCalls w' = actionCalls w ++ actions.
Proof.
  intros Ha Hnn (c0 & Hp0 & _ & Hm & _)%activate_start.
  assert (Hrun : ∃ c1 w1, componentDidMount c0 w = mountOtherActions c1 w1 ∧
                          props c1 = props c0 ∧
                          actionCalls w1 = actionCalls w).
  { destruct (fetchListActionCreator (props c0)) as [| |f] eqn:Hf.
    - exists c0, w. now rewrite componentDidMount_no_fetch.
    - rewrite Hp0 in Hf. now destruct Hnn.
    - destruct (componentDidMount_before_actions c0 w f Hf)
        as (c1 & w1 & Hrun & Hp1 & _ & Hcalls & _).
      now exists c1, w1. }
  destruct Hrun as (c1 & w1 & Hrun & Hp1 & Hcalls).
  rewrite Hrun, (mountOtherActions_val c1 w1 actions) in Hm
    by now rewrite Hp1, Hp0.
  injection Hm as <- <- <-. split; [reflexivity|].
  destruct (call_actions_frame actions w1) as (_ & _ & _ & ->).
  now rewrite Hcalls.
Qed.


(** After [componentDidMount] in a runtime without timers, the one timer
    there may be is the one [this.interval] names. *)
Lemma componentDidMount_owns_timer c w r c' w' :
  timers w = ∅ →
  componentDidMount c w = (r, c', w') →
  props c' = props c ∧ state_filters c' = state_filters c ∧
  (timers w' = ∅ ∨
   ∃ id tm, interval c' = Some id ∧ timers w' = {[ id := tm ]}).
Proof.
  intros Hw Hm.
  destruct (componentDidMount_instance c w r c' w' Hm) as [Hp Hs].
  split; [exact Hp|]. split; [exact Hs|].
  revert Hm. unfold componentDidMount.
  destruct (fetchListActionCreator (props c)) as [| |f].
  - intros (_ & -> & _)%mountOtherActions_frame. now left.
  - intros [= <- <- <-]. now left.
  - destruct (delayInterval (props c)) as [| |d];
      [| |destruct (0 <? d); [cbn [setInterval]|]];
      intros (-> & -> & _)%mountOtherActions_frame; cbn; try (now left).
    right. eexists _, _. split; [reflexivity|]. now rewrite Hw.
Qed.

Lemma mount_unmount_no_timer dts c w :
  timers w = ∅ →
  timers (snd (mount_unmount dts (c, w))) = ∅ ∧
  props (fst (mount_unmount dts (c, w))) = props c ∧
  state_filters (fst (mount_unmount dts (c, w))) = state_filters c.
Proof.
  intros Hw. unfold mount_unmount. cbn [fst snd].
  destruct (componentDidMount c w) as [[r c'] w'] eqn:Hm.
  destruct (componentDidMount_owns_timer c w r c' w' Hw Hm)
    as (Hp & Hs & Ht).
  cbn [fst snd]. split; [|now split].
  unfold componentWillUnmount.
  destruct Ht as [Ht|(id & tm & -> & Ht)].
  - destruct (interval c') as [id|]; cbn [clearInterval timers];
      rewrite advance_all_timers, Ht; [apply delete_empty|reflexivity].
  - cbn [clearInterval timers]. rewrite advance_all_timers, Ht.
    apply delete_singleton_eq.
Qed.

(** X14: however often the same instance is mounted and unmounted again,
    every unmount leaves the runtime without a timer, so that the fetch
    function is not called once the last unmount is over; the handle left
    from an earlier mount does no harm. *)
Theorem remounts_leave_no_timer cycles c w :
  timers w = ∅ →
  timers (snd (lifecycles cycles c w)) = ∅ ∧
  props (fst (lifecycles cycles c w)) = props c ∧
  state_filters (fst (lifecycles cycles c w)) = state_filters c ∧
  ∀ dts, fetchCalls (advance_all dts (snd (lifecycles cycles c w))) =
         fetchCalls (snd (lifecycles cycles c w)).
Proof.
  intros Hw.
  assert (H : timers (snd (lifecycles cycles c w)) = ∅ ∧
              props (fst (lifecycles cycles c w)) = props c ∧
              state_filters (fst (lifecycles cycles c w)) = state_filters c).
  { unfold lifecycles.
    induction cycles as [|dts cycles IH] using rev_ind; [now repeat split|].
    rewrite foldl_app. cbn [foldl].
    destruct IH as (Ht & Hp & Hs).
    destruct (foldl _ (c, w) cycles) as [c1 w1]. cbn [fst snd] in *.
    destruct (mount_unmount_no_timer dts c1 w1 Ht) as (Ht' & Hp' & Hs').
    repeat split; congruence. }
  destruct H as (Ht & Hp & Hs). repeat split; try assumption.
  intros dts. now apply advance_all_no_timers.
Qed.

Lemma mountOtherActions_next_timer c w r c' w' :
  mountOtherActions c w = (r, c', w') → next_timer w' = next_timer w.
Proof.
  unfold mountOtherActions.
  destruct (onMountOtherActionCreators (props c)) as [| |actions];
    intros [= <- <- <-]; try reflexivity.
  clear. revert w. induction actions as [|a actions IH]; intros w;
    [reflexivity|]. cbn [foldl]. now rewrite IH.
Qed.

(** X15: [componentDidMount] does not look at a timer that is already
    armed: run a second time without an unmount in between (with a positive
    interval below 2^31 ms), it arms a second timer and overwrites the
    handle, so that the unmount cancels the second timer only and the first
    keeps calling the fetch function. *)
Theorem second_mount_leaks_timer c w f d r1 c1 w1 r2 c2 w2 :
  timers w = ∅ →
  fetchListActionCreator (props c) = Val f →
  delayInterval (props c) = Val d →
  0 < d →
  d < 2 ^ 31 →
  componentDidMount c w = (r1, c1, w1) →
  componentDidMount c1 w1 = (r2, c2, w2) →
  fetchCalls w2 = S (S (fetchCalls w)) ∧
  interval c2 = Some (Pos.succ (next_timer w)) ∧
  timers (componentWillUnmount c2 w2) =
    {[ next_timer w := {| period := d; armed_at := now w |} ]} ∧
  ∀ dt, 0 ≤ dt →
    fetchCalls (advance dt (componentWillUnmount c2 w2)) =
    (S (S (fetchCalls w)) + Z.to_nat (dt / d))%nat.
Proof.
  intros Hw Hf Hd Hpos _ Hm1 Hm2.
  rewrite (componentDidMount_interval c w f d Hf Hd Hpos) in Hm1.
  pose proof (mountOtherActions_next_timer _ _ _ _ _ Hm1) as Hnext1.
  apply mountOtherActions_frame in Hm1 as (-> & Ht1 & Hn1 & Hnow1 & _).
  cbn in Ht1, Hn1, Hnow1, Hnext1, Hm2. rewrite Hw in Ht1.
  rewrite (componentDidMount_interval
             {| props := props c; state_filters := state_filters c;
                interval := Some (next_timer w) |} w1 f d Hf Hd Hpos) in Hm2.
  apply mountOtherActions_frame in Hm2 as (-> & Ht2 & Hn2 & Hnow2 & _).
  cbn in Ht2, Hn2, Hnow2.
  assert (Hleft : timers (componentWillUnmount
                            {| props := props c;
                               state_filters := state_filters c;
                               interval := Some (next_timer w1) |} w2) =
                  {[ next_timer w := {| period := d; armed_at := now w |} ]}).
  { unfold componentWillUnmount. cbn. rewrite Ht2, Ht1, Hnext1.
    rewrite delete_insert_eq. apply delete_id, lookup_singleton_ne. lia. }
  split; [congruence|]. split; [cbn; now rewrite Hnext1|].
  split; [exact Hleft|]. intros dt Hdt.
  set (w3 := componentWillUnmount _ w2) in *.
  assert (Hnow3 : now w3 = now w + 0)
    by (unfold w3, componentWillUnmount; cbn; lia).
  assert (Hn3 : fetchCalls w3 = (S (S (fetchCalls w)) + Z.to_nat (0 / d))%nat).
  { unfold w3, componentWillUnmount. cbn.
    rewrite Hn2, Hn1, Z.div_0_l by lia. cbn. lia. }
  assert (Hsteps : Forall (λ t, 0 ≤ t) [dt]) by now constructor.
  pose proof (advance_all_single_timer [dt] w3 (next_timer w) d (now w) 0
                (S (S (fetchCalls w))) Hleft Hpos (Z.le_refl 0)
                Hnow3 Hn3 Hsteps) as Hres.
  unfold elapsed, advance_all in Hres. cbn [foldr foldl] in Hres.
  now rewrite Z.add_0_l, Z.add_0_r in Hres.
Qed.

End SchedulerMore.

Section ToggleEffect.

Context {Row : Type}.
Implicit Types (h : gmap loc (OptionalFilter Row)) (c : Instance Row).
Implicit Types (o : OptionalFilter Row).

Lemma iter_toggle_matching k n o b :
  key_matches o k = true → enabled o = Some b →
  Nat.iter n (toggle_filter k) o =
  with_enabled (if Nat.odd n then negb b else b) o.
Proof.
  intros Hk Hb. induction n as [|n IH].
  - cbn. symmetry. now apply with_enabled_id.
  - rewrite Nat.iter_succ, IH, Nat.odd_succ, <- Nat.negb_odd.
    unfold toggle_filter, key_matches in *. cbn. rewrite Hk.
    unfold with_enabled. cbn.
    destruct (Nat.odd n), b; reflexivity.
Qed.

Lemma iter_toggle_other k n o :
  key_matches o k = false → Nat.iter n (toggle_filter k) o = o.
Proof.
  intros Hk. apply iter_fixed. unfold toggle_filter. now rewrite Hk.
Qed.

(** X16: what a toggle does to each object: the flag of an object with the
    key is negated once for every occurrence of its reference in the filter
    array, and nothing else is written.  So all filters that share the key
    flip together, and an object that is listed twice is left as it was. *)
Theorem toggle_effect k c h (v : loc) o b :
  h !! v = Some o →
  enabled o = Some b →
  fst (handleFilterToggle k c h) = c ∧
  snd (handleFilterToggle k c h) !! v =
    Some (if key_matches o k &&
             Nat.odd (count_occ Pos.eq_dec (state_filters c) v)
          then with_enabled (negb b) o
          else o).
Proof.
  intros Ho Hb. rewrite handleFilterToggle_eq. cbn [fst snd].
  split; [reflexivity|].
  rewrite map_in_place_lookup, Ho. cbn [fmap option_fmap option_map]. f_equal.
  destruct (key_matches o k) eqn:Hk; cbn [andb].
  - rewrite (iter_toggle_matching k _ o b Hk Hb).
    destruct (Nat.odd _); [reflexivity|]. now apply with_enabled_id.
  - now apply iter_toggle_other.
Qed.

End ToggleEffect.

(** ** The further properties on the sample list *)

Lemma mount_result_eq (x : Completion * Instance Patient * Runtime) :
  x = (fst (fst x), snd (fst x), snd x).
Proof. now destruct x as [[r c] w]. Qed.

Lemma filter_state_invariant_witness :
  optionalFilters (resolveDefaultProps sample_props) =
    Val [1%positive; 2%positive] ∧
  fst sample_toggled = sample_instance ∧
  state_filters (fst sample_toggled) = [1%positive; 2%positive] ∧
  dom (snd sample_toggled) = dom caller_objects ∧
  (∀ v o, In v [1%positive; 2%positive] → caller_objects !! v = Some o →
     ∃ b, snd sample_toggled !! v =
          Some {| label := label o; filter := filter o; enabled := Some b;
                  key := Some (normalize (label o)) |}) ∧
  (∀ v, ¬ In v [1%positive; 2%positive] →
     snd sample_toggled !! v = caller_objects !! v).
Proof.
  split; [reflexivity|].
  apply (filter_state_invariant (resolveDefaultProps sample_props)
           caller_objects [1%positive; 2%positive] sample_keys
           sample_instance sample_objects).
  - reflexivity.
  - apply sample_constructed.
  - apply surjective_pairing.
Defined.

Lemma reconstruction_resets_toggles_witness :
  optionalFilters (resolveDefaultProps sample_props) =
    Val [1%positive; 2%positive] ∧
  constructor (resolveDefaultProps sample_props) (snd sample_toggled) =
    (sample_instance, sample_objects).
Proof.
  split; [reflexivity|].
  apply (reconstruction_resets_toggles (resolveDefaultProps sample_props)
           caller_objects [1%positive; 2%positive] sample_keys
           sample_instance sample_objects
           (fst sample_toggled) (snd sample_toggled)).
  - reflexivity.
  - apply sample_constructed.
  - apply surjective_pairing.
Defined.

Lemma applyFilters_result_identity_witness :
  caller_arrays !! 1%positive = Some patients ∧
  pipeline (fst sample_toggled) (snd sample_toggled) ≠ [] ∧
  pipeline sample_instance sample_objects = [] ∧
  ∃ out σ',
    applyFilters (fst sample_toggled) (snd sample_toggled)
      1%positive caller_arrays = Some (out, σ') ∧
    caller_arrays !! out = None ∧ out ≠ 1%positive ∧
    ∃ out0 σ0,
      applyFilters sample_instance sample_objects 1%positive caller_arrays =
        Some (out0, σ0) ∧
      out0 = 1%positive.
Proof.
  split; [reflexivity|]. split; [discriminate|]. split; [reflexivity|].
  eexists _, _. split; [vm_compute; reflexivity|].
  destruct (applyFilters_result_identity (fst sample_toggled)
              (snd sample_toggled) 1%positive caller_arrays patients
              2%positive
              (<[ 2%positive := List.filter (filter evenUuid) patients ]>
                 caller_arrays)) as [_ Hnew];
    [reflexivity | vm_compute; reflexivity |].
  destruct (Hnew ltac:(discriminate)) as [Hfresh Hne].
  split; [exact Hfresh|]. split; [exact Hne|].
  eexists _, _. split; [vm_compute; reflexivity|].
  destruct (applyFilters_result_identity sample_instance sample_objects
              1%positive caller_arrays patients 1%positive caller_arrays)
    as [Hsame _]; [reflexivity | vm_compute; reflexivity |].
  now apply Hsame.
Defined.

Lemma applyFilters_subsequence_witness :
  caller_arrays !! 1%positive = Some patients ∧
  ∃ out σ' res,
    applyFilters (fst sample_toggled) (snd sample_toggled)
      1%positive caller_arrays = Some (out, σ') ∧
    σ' !! out = Some res ∧
    res `sublist_of` patients ∧
    (length res ≤ length patients)%nat ∧
    (∀ r, In r res ↔
          In r patients ∧
          survives (fst sample_toggled) (snd sample_toggled) r) ∧
    (NoDup patients → NoDup res).
Proof.
  split; [reflexivity|].
  eexists _, _, _. split; [vm_compute; reflexivity|].
  split; [vm_compute; reflexivity|].
  eapply (applyFilters_subsequence (fst sample_toggled) (snd sample_toggled)
            1%positive caller_arrays patients);
    [reflexivity | vm_compute; reflexivity | vm_compute; reflexivity].
Defined.

Lemma first_render_applies_mandatory_only_witness :
  constructor (resolveDefaultProps sample_props) caller_objects =
    (sample_instance, sample_objects) ∧
  caller_arrays !! 1%positive = Some patients ∧
  enabledOptional sample_instance sample_objects = [] ∧
  contents (applyFilters sample_instance sample_objects 1%positive
              caller_arrays) =
    Some (List.filter (passes_all (mandatoryFilters sample_instance)) patients) ∧
  (mandatoryFilters sample_instance = [] →
   applyFilters sample_instance sample_objects 1%positive caller_arrays =
   Some (1%positive, caller_arrays)).
Proof.
  split; [apply sample_constructed|]. split; [reflexivity|].
  apply (first_render_applies_mandatory_only
           (resolveDefaultProps sample_props) caller_objects
           sample_instance sample_objects 1%positive caller_arrays patients
           sample_constructed eq_refl).
Defined.

Lemma toggle_narrows_by_its_filter_witness :
  sample_objects !! 1%positive = Some (init_filter highRisk) ∧
  caller_arrays !! 1%positive = Some patients ∧
  ∃ before after,
    contents (applyFilters sample_instance sample_objects 1%positive
                caller_arrays) = Some before ∧
    contents (applyFilters sample_instance
                (snd (handleFilterToggle "highrisk" sample_instance
                        sample_objects))
                1%positive caller_arrays) = Some after ∧
    after = List.filter (filter (init_filter highRisk)) before.
Proof.
  split; [reflexivity|]. split; [reflexivity|].
  apply (toggle_narrows_by_its_filter "highrisk" sample_instance
           sample_objects 1%positive (init_filter highRisk) false
           1%positive caller_arrays patients); try reflexivity.
  intros v' o' [<-|[<-|[]]] Hne; [congruence|].
  vm_compute. intros [= <-]. discriminate.
Defined.

Lemma render_after_toggles_witness :
  optionalFilters (resolveDefaultProps sample_props) =
    Val [1%positive; 2%positive] ∧
  caller_arrays !! rowData (resolveDefaultProps sample_props) = Some patients ∧
  ∃ view σ',
    render (fst sample_toggled) (resolveDefaultDisplayProps sample_display)
      (snd sample_toggled) caller_arrays = Some (view, σ') ∧
    heading view = Val "Patients"%string ∧
    filterCheckboxes view =
      [ {| onChange_filter := 1%positive; children := "High Risk" |};
        {| onChange_filter := 2%positive; children := "Even  UUID" |} ] ∧
    grid_columnDefs (dataGrid view) = Val default_columnDefs ∧
    grid_onRowCount (dataGrid view) = Undefined ∧
    grid_rowSelectedActionCreators (dataGrid view) = Undefined ∧
    σ' !! grid_rowData (dataGrid view) =
      Some (List.filter (passes_all (pipeline (fst sample_toggled)
                                              (snd sample_toggled)))
                        patients) ∧
    σ' !! rowData (resolveDefaultProps sample_props) = Some patients.
Proof.
  split; [reflexivity|]. split; [reflexivity|].
  apply (render_after_toggles (resolveDefaultProps sample_props)
           (resolveDefaultDisplayProps sample_display) caller_objects [1%positive; 2%positive] sample_keys
           sample_instance sample_objects
           (fst sample_toggled) (snd sample_toggled) caller_arrays patients).
  - reflexivity.
  - apply sample_constructed.
  - apply surjective_pairing.
  - reflexivity.
Defined.

Lemma positive_interval_refreshes_witness :
  timers fresh_runtime = ∅ ∧
  delayInterval (resolveDefaultProps sample_props_refresh) = Val 1000 ∧
  0 < 1000 < 2 ^ 31 ∧
  Forall (λ dt, 0 ≤ dt) [2500; 300] ∧
  interval (activated_instance sample_props_refresh) = Some 1%positive ∧
  timers (activated_runtime sample_props_refresh) =
    {[ 1%positive := {| period := 1000; armed_at := 0 |} ]} ∧
  fetchCalls (advance_all [2500; 300]
                (activated_runtime sample_props_refresh)) = 3%nat.
Proof.
  assert (Hsteps : Forall (λ dt, 0 ≤ dt) [2500; 300])
    by (repeat (constructor; [lia|]); constructor).
  split; [reflexivity|]. split; [reflexivity|]. split; [lia|].
  split; [exact Hsteps|].
  apply (positive_interval_refreshes sample_props_refresh caller_objects
           fresh_runtime 0%nat 1000
           (fst (fst (fst (activated sample_props_refresh))))
           (activated_instance sample_props_refresh)
           (activated_objects sample_props_refresh)
           (activated_runtime sample_props_refresh) [2500; 300]
           eq_refl eq_refl eq_refl eq_refl eq_refl Hsteps
           (activated_eq sample_props_refresh)).
Defined.

Lemma other_action_creators_in_order_witness :
  onMountOtherActionCreators sample_props_actions =
    Val [7%nat; 8%nat; 7%nat] ∧
  fetchListActionCreator sample_props_actions ≠ Null ∧
  fst (fst (fst (activated sample_props_actions))) = Normal ∧
  actionCalls (activated_runtime sample_props_actions) =
    [7%nat; 8%nat; 7%nat].
Proof.
  split; [reflexivity|]. split; [discriminate|].
  apply (other_action_creators_in_order sample_props_actions caller_objects
           fresh_runtime [7%nat; 8%nat; 7%nat]
           (fst (fst (fst (activated sample_props_actions))))
           (activated_instance sample_props_actions)
           (activated_objects sample_props_actions)
           (activated_runtime sample_props_actions) eq_refl).
  - discriminate.
  - apply activated_eq.
Defined.


Lemma remounts_leave_no_timer_witness :
  timers fresh_runtime = ∅ ∧
  timers (snd (lifecycles [[2500]; [100; 900]; []]
                 sample_instance_refresh fresh_runtime)) = ∅ ∧
  props (fst (lifecycles [[2500]; [100; 900]; []]
                sample_instance_refresh fresh_runtime)) =
    props sample_instance_refresh ∧
  state_filters (fst (lifecycles [[2500]; [100; 900]; []]
                        sample_instance_refresh fresh_runtime)) =
    state_filters sample_instance_refresh ∧
  ∀ dts,
    fetchCalls (advance_all dts
                  (snd (lifecycles [[2500]; [100; 900]; []]
                          sample_instance_refresh fresh_runtime))) =
    fetchCalls (snd (lifecycles [[2500]; [100; 900]; []]
                       sample_instance_refresh fresh_runtime)).
Proof.
  split; [reflexivity|].
  apply (remounts_leave_no_timer [[2500]; [100; 900]; []]
           sample_instance_refresh fresh_runtime eq_refl).
Defined.

Lemma second_mount_leaks_timer_witness :
  timers fresh_runtime = ∅ ∧
  fetchListActionCreator (props sample_instance_refresh) = Val 0%nat ∧
  delayInterval (props sample_instance_refresh) = Val 1000 ∧
  0 < 1000 < 2 ^ 31 ∧
  fetchCalls (snd second_mount) = 2%nat ∧
  interval (snd (fst second_mount)) = Some 2%positive ∧
  timers (componentWillUnmount (snd (fst second_mount)) (snd second_mount)) =
    {[ 1%positive := {| period := 1000; armed_at := 0 |} ]} ∧
  ∀ dt, 0 ≤ dt →
    fetchCalls (advance dt (componentWillUnmount (snd (fst second_mount))
                              (snd second_mount))) =
    (2 + Z.to_nat (dt / 1000))%nat.
Proof.
  split; [reflexivity|]. split; [reflexivity|]. split; [reflexivity|].
  split; [lia|].
  apply (second_mount_leaks_timer sample_instance_refresh fresh_runtime
           0%nat 1000 _ _ _ _ _ _ eq_refl eq_refl eq_refl eq_refl eq_refl
           (mount_result_eq first_mount) (mount_result_eq second_mount)).
Defined.

Lemma toggle_effect_witness :
  sample_objects !! 1%positive = Some (init_filter highRisk) ∧
  sample_objects !! 2%positive = Some (init_filter evenUuid) ∧
  snd (handleFilterToggle "highrisk" doubled_instance sample_objects)
    !! 1%positive = Some (init_filter highRisk) ∧
  snd (handleFilterToggle "evenuuid" doubled_instance sample_objects)
    !! 2%positive = Some (with_enabled true (init_filter evenUuid)).
Proof.
  split; [reflexivity|]. split; [reflexivity|]. split.
  - apply (toggle_effect "highrisk" doubled_instance sample_objects
             1%positive (init_filter highRisk) false); reflexivity.
  - apply (toggle_effect "evenuuid" doubled_instance sample_objects
             2%positive (init_filter evenUuid) false); reflexivity.
Defined.
